(** * Wormhole core bridge: message parsing and guardian-quorum verification

    A shallow embedding of [contracts/Messages.sol] (Solidity ^0.8.0):
    the V1/V2/V3 message parsers, the double-hash rule, the guardian
    quorum check, the signature walk and the verified-hash cache.

    Conventions of the embedding:
    - Solidity value types ([uint8] ... [uint256], [bytes32], [address])
      are natural numbers in [N]; arithmetic is the checked arithmetic of
      Solidity 0.8, which aborts with [Panic 0x11] instead of wrapping;
    - dynamic [bytes] are [list byte];
    - a call either returns a value or aborts the whole transaction:
      [result A]; [pure] functions take no state, [view] functions read a
      [State], the others also return the new [State];
    - [keccak256] and [ecrecover] are EVM primitives and stay abstract. *)

From Stdlib Require Import NArith List String Bool Lia Sorted.
From Stdlib Require Strings.Byte.
From stdpp Require Import base option list gmap.
Import ListNotations.

Abbreviation byte := Init.Byte.byte.

Local Open Scope N_scope.

(** ** Aborting computations *)

Inductive error : Type :=
| Reverted (reason : string)   (* a failed [require(cond, reason)] *)
| Panic (code : N)             (* 0x11 arithmetic overflow, 0x32 array index *)
| OutOfBounds.                 (* a BytesLib read past the end of the buffer *)

Inductive result (A : Type) : Type :=
| Ok (a : A)
| Err (e : error).

Arguments Ok {A} a.
Arguments Err {A} e.

#[global] Instance result_bind : MBind result := fun A B f m =>
  match m with
  | Ok a => f a
  | Err e => Err e
  end.

Definition require (cond : bool) (reason : string) : result unit :=
  if cond then Ok tt else Err (Reverted reason).

(** ** Checked unsigned arithmetic (Solidity 0.8) *)

Definition checked_add (w a b : N) : result N :=
  if a + b <? 2 ^ w then Ok (a + b) else Err (Panic 17).

Definition checked_sub (a b : N) : result N :=
  if b <=? a then Ok (a - b) else Err (Panic 17).

Definition checked_mul (w a b : N) : result N :=
  if a * b <? 2 ^ w then Ok (a * b) else Err (Panic 17).

Notation "a +! b" := (checked_add 256 a b) (at level 50, left associativity).
Notation "a -! b" := (checked_sub a b) (at level 50, left associativity).
Notation "a *! b" := (checked_mul 256 a b) (at level 40, left associativity).

(** ** Byte buffers (libraries/external/BytesLib.sol) *)

Definition blength (b : list byte) : N := N.of_nat (length b).

(** Big-endian value of a byte string. *)
Definition be_combine (bs : list byte) : N :=
  fold_left (fun acc b => acc * 256 + Byte.to_N b) bs 0.

(** The [n] low-order bytes of [x], most significant first
    ([abi.encodePacked] of a fixed-width value). *)
Fixpoint be_split (n : nat) (x : N) : list byte :=
  match n with
  | O => []
  | S n' =>
      be_split n' (x / 256) ++
      [match Byte.of_N (x mod 256) with Some b => b | None => Byte.x00 end]
  end.

(** Modelled from the spec: BytesLib.slice is not among the sources; the
    spec says reads "must not read past buffer length; any short read
    fails". The slice is the [len] bytes from offset [start]. *)
Definition slice (b : list byte) (start len : N) : result (list byte) :=
  if start + len <=? blength b
  then Ok (take (N.to_nat len) (drop (N.to_nat start) b))
  else Err OutOfBounds.

(** Modelled from the spec: the fixed-width BytesLib readers are not among
    the sources; the spec says they are big-endian and bounds-checked. *)
Definition toUint (width : N) (b : list byte) (start : N) : result N :=
  bs ← slice b start width; Ok (be_combine bs).

(** [toUint8], ..., [toBytes32] read 1, 2, 4, 8 and 32 bytes. *)
Definition toUint8 := toUint 1.
Definition toUint16 := toUint 2.
Definition toUint32 := toUint 4.
Definition toUint64 := toUint 8.
Definition toBytes32 := toUint 32.

(** [abi.encodePacked(bytes32)]. *)
Definition encodePacked32 (x : N) : list byte := be_split 32 x.

(** ** Structs (Structs.sol, as used by Messages.sol) *)

(** Modelled from the spec: Structs.sol is not among the sources. The
    records below have the fields that Messages.sol reads and writes,
    typed as in the data model of the spec. A signature is
    [{guardianIndex: u8, r, s: 32 bytes, recoveryId: u8}]. *)
Record Signature : Type := {
  sig_r : N;
  sig_s : N;
  sig_v : N;
  sig_guardianIndex : N
}.

(** Modelled from the spec: [{keys: sequence of 20-byte addresses,
    expirationTime}]. *)
Record GuardianSet : Type := {
  keys : list N;
  expirationTime : N
}.

(** Modelled from the spec: the observation every version exposes. *)
Record Observation : Type := {
  obs_timestamp : N;
  obs_nonce : N;
  obs_emitterChainId : N;
  obs_emitterAddress : N;
  obs_sequence : N;
  obs_consistencyLevel : N;
  obs_payload : list byte
}.

(** Modelled from the spec: the part of a header that [verifyHeader]
    reads. *)
Record Header : Type := {
  hdr_guardianSetIndex : N;
  hdr_signatures : list Signature;
  hdr_hash : N
}.

(** Modelled from the spec: the header of a V2 batch, with its hash list. *)
Record BatchHeader : Type := {
  bh_version : N;
  bh_guardianSetIndex : N;
  bh_signatures : list Signature;
  bh_hashes : list N;
  bh_hash : N
}.

(** Modelled from the spec: a V1 message, header fields and observation
    flattened. *)
Record VM : Type := {
  vm_version : N;
  vm_timestamp : N;
  vm_nonce : N;
  vm_emitterChainId : N;
  vm_emitterAddress : N;
  vm_sequence : N;
  vm_consistencyLevel : N;
  vm_payload : list byte;
  vm_guardianSetIndex : N;
  vm_signatures : list Signature;
  vm_hash : N
}.

(** Modelled from the spec: a V2 batch. *)
Record VM2 : Type := {
  vm2_header : BatchHeader;
  vm2_observations : list (list byte)
}.

(** Modelled from the spec: a V3 message, without signatures. *)
Record VM3 : Type := {
  vm3_version : N;
  vm3_observation : Observation;
  vm3_hash : N
}.

(** The zero value of a memory struct. *)
Definition emptyObservation : Observation :=
  {| obs_timestamp := 0; obs_nonce := 0; obs_emitterChainId := 0;
     obs_emitterAddress := 0; obs_sequence := 0; obs_consistencyLevel := 0;
     obs_payload := [] |}.

Definition emptyGuardianSet : GuardianSet :=
  {| keys := []; expirationTime := 0 |}.

(** ** Contract state (State.sol, Getters.sol, Setters.sol) *)

(** Modelled from the spec: State.sol is not among the sources. The state
    holds what the getters of Messages.sol read: the guardian registry,
    the current guardian-set index and the verified-hash cache; the block
    time of the call is carried along with it. *)
Record State : Type := {
  guardianSets : gmap N GuardianSet;
  guardianSetIndex : N;
  verifiedHashes : gmap N bool;
  block_timestamp : N
}.

(** Modelled from the spec: Getters.getGuardianSet is not among the
    sources; the spec gives it as a read-only lookup by index. A Solidity
    mapping yields the zero struct at an index never written. *)
Definition getGuardianSet (st : State) (index : N) : GuardianSet :=
  default emptyGuardianSet (guardianSets st !! index).

(** Modelled from the spec: Getters.getCurrentGuardianSetIndex. *)
Definition getCurrentGuardianSetIndex (st : State) : N := guardianSetIndex st.

(** Modelled from the spec: Getters.verifiedHashCached, the lookup
    [cached(hash) -> bool] of the process-wide hash map. *)
Definition verifiedHashCached (st : State) (hash : N) : bool :=
  default false (verifiedHashes st !! hash).

(** Modelled from the spec: Setters.updateVerifiedCacheStatus, the
    [markVerified(hash, verified)] write of the same map. *)
Definition updateVerifiedCacheStatus (hash : N) (verified : bool) (st : State) : State :=
  {| guardianSets := guardianSets st;
     guardianSetIndex := guardianSetIndex st;
     verifiedHashes := <[hash := verified]> (verifiedHashes st);
     block_timestamp := block_timestamp st |}.

(** ** Messages.sol *)

Section Messages.

(** The EVM primitives: [keccak256(bytes)] and
    [ecrecover(hash, v, r, s)], which yields the signer's address. *)
Variable keccak256 : list byte -> N.
Variable ecrecover : N -> N -> N -> N -> N.

(** *** Parsers ([pure]) *)

Definition parseObservation (start len : N) (encodedObservation : list byte)
  : result Observation :=
  let index := start in
  timestamp ← toUint32 encodedObservation index;
  index ← index +! 4;
  nonce ← toUint32 encodedObservation index;
  index ← index +! 4;
  emitterChainId ← toUint16 encodedObservation index;
  index ← index +! 2;
  emitterAddress ← toBytes32 encodedObservation index;
  index ← index +! 32;
  sequence ← toUint64 encodedObservation index;
  index ← index +! 8;
  consistencyLevel ← toUint8 encodedObservation index;
  index ← index +! 1;
  consumed ← index -! start;
  require (consumed <=? len) "Insufficient observation length";;
  payloadLen ← len -! consumed;
  payload ← slice encodedObservation index payloadLen;
  Ok {| obs_timestamp := timestamp; obs_nonce := nonce;
        obs_emitterChainId := emitterChainId;
        obs_emitterAddress := emitterAddress;
        obs_sequence := sequence;
        obs_consistencyLevel := consistencyLevel;
        obs_payload := payload |}.

(** The body of [for (uint i = 0; i < signersLen; i++)], [n] rounds
    left. The recovery byte is a [uint8] and so is [+ 27]. *)
Fixpoint parseSignatures_loop (n : nat) (index : N) (data : list byte)
  : result (list Signature) :=
  match n with
  | O => Ok []
  | S n' =>
      guardianIndex ← toUint8 data index;
      index ← index +! 1;
      r ← toBytes32 data index;
      index ← index +! 32;
      s ← toBytes32 data index;
      index ← index +! 32;
      v0 ← toUint8 data index;
      v ← checked_add 8 v0 27;
      index ← index +! 1;
      rest ← parseSignatures_loop n' index data;
      Ok ({| sig_r := r; sig_s := s; sig_v := v;
             sig_guardianIndex := guardianIndex |} :: rest)
  end.

Definition parseSignatures (start signersLen : N) (data : list byte)
  : result (list Signature) :=
  parseSignatures_loop (N.to_nat signersLen) start data.

Definition parseVM (encodedVM : list byte) : result VM :=
  let index := 0 in
  version ← toUint8 encodedVM index;
  index ← index +! 1;
  require (version =? 1) "VM version incompatible";;
  guardianSetIndex ← toUint32 encodedVM index;
  index ← index +! 4;
  signersLen ← toUint8 encodedVM index;
  index ← index +! 1;
  signatures ← parseSignatures index signersLen encodedVM;
  sigBytes ← 66 *! signersLen;
  index ← index +! sigBytes;
  bodyLen ← blength encodedVM -! index;
  body ← slice encodedVM index bodyLen;
  let hash := keccak256 (encodePacked32 (keccak256 body)) in
  obsLen ← blength encodedVM -! index;
  observation ← parseObservation index obsLen encodedVM;
  Ok {| vm_version := version;
        vm_timestamp := obs_timestamp observation;
        vm_nonce := obs_nonce observation;
        vm_emitterChainId := obs_emitterChainId observation;
        vm_emitterAddress := obs_emitterAddress observation;
        vm_sequence := obs_sequence observation;
        vm_consistencyLevel := obs_consistencyLevel observation;
        vm_payload := obs_payload observation;
        vm_guardianSetIndex := guardianSetIndex;
        vm_signatures := signatures;
        vm_hash := hash |}.

(** [for (uint8 i = 0; i < hashesLen; i++)]: reads one [bytes32] per
    round and hands back the advanced index. *)
Fixpoint parseHashes_loop (n : nat) (index : N) (encodedVM : list byte)
  : result (list N * N) :=
  match n with
  | O => Ok ([], index)
  | S n' =>
      h ← toBytes32 encodedVM index;
      index ← index +! 32;
      '(rest, index) ← parseHashes_loop n' index encodedVM;
      Ok (h :: rest, index)
  end.

(** [for (uint8 i = 0; i < observationsLen; i++)]: the length is read
    with [toUint32] but the index moves by one byte; every extracted
    observation is prefixed with [uint8(3)]. *)
Fixpoint parseObservations_loop (n : nat) (index : N) (encodedVM : list byte)
  : result (list (list byte)) :=
  match n with
  | O => Ok []
  | S n' =>
      observationLen ← toUint32 encodedVM index;
      index ← index +! 1;
      raw ← slice encodedVM index observationLen;
      index ← index +! observationLen;
      rest ← parseObservations_loop n' index encodedVM;
      Ok ((Byte.x03 :: raw) :: rest)
  end.

(** [hashesLen] is a [uint8], hence so is [hashesLen * 32]. The index is
    not advanced after [hashesLen] has been read. *)
Definition parseVM2 (encodedVM : list byte) : result VM2 :=
  let index := 0 in
  version ← toUint8 encodedVM index;
  index ← index +! 1;
  require (version =? 2) "VM version incompatible";;
  guardianSetIndex ← toUint32 encodedVM index;
  index ← index +! 4;
  signersLen ← toUint8 encodedVM index;
  index ← index +! 1;
  signatures ← parseSignatures index signersLen encodedVM;
  sigBytes ← 66 *! signersLen;
  index ← index +! sigBytes;
  hashesLen ← toUint8 encodedVM index;
  bodyLen ← checked_mul 8 hashesLen 32;
  body ← slice encodedVM index bodyLen;
  let hash := keccak256 (encodePacked32 (keccak256 body)) in
  '(hashes, index) ← parseHashes_loop (N.to_nat hashesLen) index encodedVM;
  observationsLen ← toUint8 encodedVM index;
  observations ← parseObservations_loop (N.to_nat observationsLen) index encodedVM;
  Ok {| vm2_header :=
          {| bh_version := version;
             bh_guardianSetIndex := guardianSetIndex;
             bh_signatures := signatures;
             bh_hashes := hashes;
             bh_hash := hash |};
        vm2_observations := observations |}.

Definition parseVM3 (encodedVM : list byte) : result VM3 :=
  let index := 3 in
  version ← toUint8 encodedVM index;
  index ← index +! 1;
  require (version =? 3) "VM version incompatible";;
  observation ← parseObservation index (blength encodedVM) encodedVM;
  bodyLen ← blength encodedVM -! index;
  body ← slice encodedVM index bodyLen;
  Ok {| vm3_version := version;
        vm3_observation := observation;
        vm3_hash := keccak256 (encodePacked32 (keccak256 body)) |}.

(** *** Quorum and signatures ([pure]) *)

Definition quorum (numGuardians : N) : result N :=
  require (numGuardians <? 256) "too many guardians";;
  doubled ← numGuardians *! 2;
  doubled / 3 +! 1.

(** [a[i]] on a dynamic array: [Panic 0x32] outside the bounds. *)
Definition array_get (a : list N) (i : N) : result N :=
  match a !! N.to_nat i with
  | Some x => Ok x
  | None => Err (Panic 50)
  end.

(** The body of [for (uint i = 0; i < signatures.length; i++)] with the
    loop variables [i] and [lastIndex] as arguments. *)
Fixpoint verifySignatures_loop (hash : N) (signatures : list Signature)
    (guardianSet : GuardianSet) (i lastIndex : N) : result (bool * string) :=
  match signatures with
  | [] => Ok (true, ""%string)
  | sig :: rest =>
      require ((i =? 0) || (lastIndex <? sig_guardianIndex sig))
              "signature indices must be ascending";;
      let lastIndex := sig_guardianIndex sig in
      require (sig_guardianIndex sig <? N.of_nat (length (keys guardianSet)))
              "guardian index out of bounds";;
      key ← array_get (keys guardianSet) (sig_guardianIndex sig);
      if negb (ecrecover hash (sig_v sig) (sig_r sig) (sig_s sig) =? key)
      then Ok (false, "VM signature invalid"%string)
      else verifySignatures_loop hash rest guardianSet (i + 1) lastIndex
  end.

Definition verifySignatures (hash : N) (signatures : list Signature)
    (guardianSet : GuardianSet) : result (bool * string) :=
  verifySignatures_loop hash signatures guardianSet 0 0.

(** *** Verification ([view]) *)

Definition verifyHeader (st : State) (vm : Header) : result (bool * string) :=
  if verifiedHashCached st (hdr_hash vm) then Ok (true, ""%string)
  else
    let guardianSet := getGuardianSet st (hdr_guardianSetIndex vm) in
    if N.of_nat (length (keys guardianSet)) =? 0
    then Ok (false, "invalid guardian set"%string)
    else if negb (hdr_guardianSetIndex vm =? getCurrentGuardianSetIndex st)
            && (expirationTime guardianSet <? block_timestamp st)
    then Ok (false, "guardian set has expired"%string)
    else
      needed ← quorum (N.of_nat (length (keys guardianSet)));
      if N.of_nat (length (hdr_signatures vm)) <? needed
      then Ok (false, "no quorum"%string)
      else
        '(signaturesValid, invalidReason) ←
          verifySignatures (hdr_hash vm) (hdr_signatures vm) guardianSet;
        if negb signaturesValid then Ok (false, invalidReason)
        else Ok (true, ""%string).

Definition verifyVM (st : State) (vm : VM) : result (bool * string) :=
  verifyHeader st
    {| hdr_guardianSetIndex := vm_guardianSetIndex vm;
       hdr_signatures := vm_signatures vm;
       hdr_hash := vm_hash vm |}.

Definition verifyVM3 (st : State) (vm : VM3) : result (bool * string) :=
  if verifiedHashCached st (vm3_hash vm) then Ok (true, ""%string)
  else Ok (false, "Could not find hash in cache"%string).

Definition verifyBatchHeader (st : State) (vm : BatchHeader)
  : result (bool * string) :=
  verifyHeader st
    {| hdr_guardianSetIndex := bh_guardianSetIndex vm;
       hdr_signatures := bh_signatures vm;
       hdr_hash := bh_hash vm |}.

(** *** Entry points *)

Definition parseAndVerifyVM (st : State) (encodedVM : list byte)
  : result (VM * bool * string) :=
  vm ← parseVM encodedVM;
  '(valid, reason) ← verifyVM st vm;
  Ok (vm, valid, reason).

(** [for (uint i = 0; i < hashes.length; i++)
       updateVerifiedCacheStatus(hashes[i], status);] *)
Definition updateAll (hashes : list N) (status : bool) (st : State) : State :=
  fold_left (fun s h => updateVerifiedCacheStatus h status s) hashes st.

(** Not a [view]: the new state is part of the result. *)
Definition parseAndVerifyVM2 (st : State) (encodedVM : list byte)
  : result (VM2 * bool * string * State) :=
  vm ← parseVM2 encodedVM;
  '(valid, reason) ← verifyBatchHeader st (vm2_header vm);
  let st' := updateAll (bh_hashes (vm2_header vm)) true st in
  Ok (vm, valid, reason, st').

Definition wipeBatchCache (header : BatchHeader) (st : State) : State :=
  updateAll (bh_hashes header) false st.

Definition parseAndVerifyVM3 (st : State) (encodedVM : list byte)
  : result (VM3 * bool * string) :=
  vm ← parseVM3 encodedVM;
  '(valid, reason) ← verifyVM3 st vm;
  Ok (vm, valid, reason).

Definition parseAndVerifyVAA (st : State) (encodedVM : list byte)
  : result (Observation * bool * string) :=
  version ← toUint8 encodedVM 0;
  if version =? 1 then
    '(vm, valid, reason) ← parseAndVerifyVM st encodedVM;
    Ok ({| obs_timestamp := vm_timestamp vm;
           obs_nonce := vm_nonce vm;
           obs_emitterChainId := vm_emitterChainId vm;
           obs_emitterAddress := vm_emitterAddress vm;
           obs_sequence := vm_sequence vm;
           obs_consistencyLevel := vm_consistencyLevel vm;
           obs_payload := vm_payload vm |}, valid, reason)
  else if version =? 3 then
    '(vm, valid, reason) ← parseAndVerifyVM3 st encodedVM;
    Ok (vm3_observation vm, valid, reason)
  else Ok (emptyObservation, false, "Invalid version"%string).

End Messages.

(** ** Vocabulary of the statements *)

(** The call aborts: the transaction is reverted and nothing is returned. *)
Definition reverts {A : Type} (r : result A) : Prop := ∃ e, r = Err e.

(** The signature recovers to the guardian key stored at its index
    (which puts the index inside the guardian set). *)
Definition individually_valid (ecrecover : N → N → N → N → N) (hash : N)
    (guardianSet : GuardianSet) (sig : Signature) : Prop :=
  keys guardianSet !! N.to_nat (sig_guardianIndex sig)
  = Some (ecrecover hash (sig_v sig) (sig_r sig) (sig_s sig)).

(** The value of the loop variable [lastIndex] once the walk has gone
    through [signatures]. *)
Definition lastIndex_after (signatures : list Signature) (lastIndex : N) : N :=
  from_option sig_guardianIndex lastIndex (last signatures).

(** The observation that [parseAndVerifyVAA] copies out of a V1 message. *)
Definition observation_of_VM (vm : VM) : Observation :=
  {| obs_timestamp := vm_timestamp vm;
     obs_nonce := vm_nonce vm;
     obs_emitterChainId := vm_emitterChainId vm;
     obs_emitterAddress := vm_emitterAddress vm;
     obs_sequence := vm_sequence vm;
     obs_consistencyLevel := vm_consistencyLevel vm;
     obs_payload := vm_payload vm |}.

(** An external call of a [view] function: the state it leaves is the
    state it found. *)
Definition call_view {A : Type} (f : State → result A) (st : State)
  : result (A * State) :=
  a ← f st; Ok (a, st).

(** Two calls in a row, the second in the state left by the first. *)
Definition twice {A : Type} (f : State → result (A * State)) (st : State)
  : result (A * A * State) :=
  '(a1, st1) ← f st;
  '(a2, st2) ← f st1;
  Ok (a1, a2, st2).

(** ** Sample data for the closed instances *)

Definition bytes_of (l : list N) : list byte :=
  (λ n, match Byte.of_N n with Some b => b | None => Byte.x00 end) <$> l.

(** Stand-ins for the two primitives where an instance has to compute. *)
Definition sample_keccak256 (b : list byte) : N :=
  be_combine (take 4 b) + blength b.

Definition sample_ecrecover (hash v r s : N) : N := hash + v + r + s.

Definition no_signer (hash v r s : N) : N := 0.

(** No guardian set registered, nothing cached. *)
Definition empty_state : State :=
  {| guardianSets := ∅; guardianSetIndex := 0;
     verifiedHashes := ∅; block_timestamp := 100 |}.

(** Guardian set 0 is current and holds the given keys. *)
Definition guardian_state (ks : list N) : State :=
  {| guardianSets := {[ 0 := {| keys := ks; expirationTime := 0 |} ]};
     guardianSetIndex := 0;
     verifiedHashes := ∅; block_timestamp := 100 |}.

(** Set 0 expired at time 50, set 1 is current; the clock shows 100. *)
Definition rotated_state : State :=
  {| guardianSets := {[ 0 := {| keys := [1]; expirationTime := 50 |};
                        1 := {| keys := [1]; expirationTime := 0 |} ]};
     guardianSetIndex := 1;
     verifiedHashes := ∅; block_timestamp := 100 |}.

(** Hash 42 is marked verified and no guardian set exists. *)
Definition cached_state : State :=
  {| guardianSets := ∅; guardianSetIndex := 0;
     verifiedHashes := {[ 42 := true ]}; block_timestamp := 100 |}.

(** A V2 message: version 2, guardian set 0, no signature, [hashesLen = 1]
    at offset 6, 31 bytes [0xaa], and a final zero byte at offset 38. *)
Definition batch_buffer : list byte :=
  bytes_of ([2; 0; 0; 0; 0; 0; 1] ++ repeat 170 31 ++ [0]).

(** A V1 message: version 1, guardian set 0, one signature
    (index 0, r = 7, s = 9, recovery byte 0) and a 53-byte body. *)
Definition v1_buffer : list byte :=
  bytes_of ([1; 0; 0; 0; 0; 1]
            ++ [0] ++ repeat 0 31 ++ [7] ++ repeat 0 31 ++ [9] ++ [0]
            ++ [0; 0; 0; 1; 0; 0; 0; 2; 0; 3] ++ repeat 0 31 ++ [4]
            ++ [0; 0; 0; 0; 0; 0; 0; 5; 6] ++ [170; 187]).

Definition v1_observation : Observation :=
  {| obs_timestamp := 1; obs_nonce := 2; obs_emitterChainId := 3;
     obs_emitterAddress := 4; obs_sequence := 5; obs_consistencyLevel := 6;
     obs_payload := [Byte.xaa; Byte.xbb] |}.

Definition v1_hash : N :=
  sample_keccak256 (encodePacked32 (sample_keccak256 (drop 72 v1_buffer))).

Definition v1_signer : N := sample_ecrecover v1_hash 27 7 9.

(** Signatures over hash 1: [good_sig] recovers to key 44 under
    [sample_ecrecover], [bad_sig] does not, [far_sig] names guardian 5. *)
Definition good_sig : Signature :=
  {| sig_r := 7; sig_s := 9; sig_v := 27; sig_guardianIndex := 0 |}.

Definition bad_sig : Signature :=
  {| sig_r := 0; sig_s := 0; sig_v := 27; sig_guardianIndex := 0 |}.

Definition far_sig : Signature :=
  {| sig_r := 7; sig_s := 9; sig_v := 27; sig_guardianIndex := 5 |}.

Definition header_of (index : N) (sigs : list Signature) (hash : N) : Header :=
  {| hdr_guardianSetIndex := index; hdr_signatures := sigs; hdr_hash := hash |}.

(** The guardian set under which [good_sig] is valid for hash 1. *)
Definition one_guardian : GuardianSet :=
  {| keys := [44]; expirationTime := 0 |}.

(** What [parseVM] makes of [v1_buffer] under [sample_keccak256]. *)
Definition v1_message : VM :=
  {| vm_version := 1;
     vm_timestamp := 1; vm_nonce := 2; vm_emitterChainId := 3;
     vm_emitterAddress := 4; vm_sequence := 5; vm_consistencyLevel := 6;
     vm_payload := [Byte.xaa; Byte.xbb];
     vm_guardianSetIndex := 0;
     vm_signatures :=
       [{| sig_r := 7; sig_s := 9; sig_v := 27; sig_guardianIndex := 0 |}];
     vm_hash := v1_hash |}.

(** The hash of [v1_buffer] is marked verified; no guardian set exists. *)
Definition v1_cached_state : State :=
  {| guardianSets := ∅; guardianSetIndex := 0;
     verifiedHashes := {[ v1_hash := true ]}; block_timestamp := 100 |}.

(** Sixty bytes, each of them 3. *)
Definition v3_buffer : list byte := bytes_of (repeat 3 60).

(** What [parseVM2] makes of [batch_buffer] under [sample_keccak256]. *)
Definition batch_message : VM2 :=
  {| vm2_header :=
       {| bh_version := 2;
          bh_guardianSetIndex := 0;
          bh_signatures := [];
          bh_hashes := [be_combine (bytes_of (1 :: repeat 170 31))];
          bh_hash :=
            sample_keccak256
              (encodePacked32
                 (sample_keccak256 (bytes_of (1 :: repeat 170 31)))) |};
     vm2_observations := [] |}.

(** [empty_state] once [batch_buffer] has gone through
    [parseAndVerifyVM2]. *)
Definition batch_state : State :=
  updateVerifiedCacheStatus (be_combine (bytes_of (1 :: repeat 170 31))) true
    empty_state.

(** The body of [v1_buffer] behind another header: guardian set 7 and no
    signature. *)
Definition v1_buffer_other : list byte :=
  bytes_of [1; 0; 0; 0; 7; 0] ++ drop 72 v1_buffer.

Definition v1_message_other : VM :=
  {| vm_version := 1;
     vm_timestamp := 1; vm_nonce := 2; vm_emitterChainId := 3;
     vm_emitterAddress := 4; vm_sequence := 5; vm_consistencyLevel := 6;
     vm_payload := [Byte.xaa; Byte.xbb];
     vm_guardianSetIndex := 7;
     vm_signatures := [];
     vm_hash := v1_hash |}.

(** ** Inversion of the building blocks *)

Lemma bind_Ok {A B : Type} (m : result A) (f : A → result B) (b : B) :
  m ≫= f = Ok b → ∃ a, m = Ok a ∧ f a = Ok b.
Proof. destruct m as [a|e]; [eauto | discriminate]. Qed.

Lemma reverts_bind_l {A B : Type} (m : result A) (f : A → result B) :
  reverts m → reverts (m ≫= f).
Proof. intros [e ->]. by exists e. Qed.

Lemma reverts_bind_r {A B : Type} (m : result A) (f : A → result B) :
  (∀ a, m = Ok a → reverts (f a)) → reverts (m ≫= f).
Proof.
  destruct m as [a|e]; [intros H; by apply (H a) | intros _; by exists e].
Qed.

Lemma require_Ok (c : bool) (reason : string) (u : unit) :
  require c reason = Ok u → c = true.
Proof. by destruct c. Qed.

Lemma checked_add_Ok (w a b c : N) : checked_add w a b = Ok c → c = a + b.
Proof. unfold checked_add. case_match; congruence. Qed.

Lemma checked_mul_Ok (w a b c : N) :
  checked_mul w a b = Ok c → c = a * b ∧ a * b < 2 ^ w.
Proof.
  unfold checked_mul. destruct (a * b <? 2 ^ w) eqn:E; [|discriminate].
  apply N.ltb_lt in E. intros [= <-]. done.
Qed.

Lemma checked_sub_Ok (a b c : N) : checked_sub a b = Ok c → c = a - b ∧ b <= a.
Proof.
  unfold checked_sub. destruct (b <=? a) eqn:E; [|discriminate].
  apply N.leb_le in E. intros [= <-]. done.
Qed.

Lemma slice_Ok (b : list byte) (start len : N) (bs : list byte) :
  slice b start len = Ok bs →
  start + len <= blength b ∧ bs = take (N.to_nat len) (drop (N.to_nat start) b).
Proof.
  unfold slice. destruct (start + len <=? blength b) eqn:E; [|discriminate].
  apply N.leb_le in E. intros [= <-]. done.
Qed.

Lemma slice_past_end (b : list byte) (start len : N) :
  blength b < start + len → slice b start len = Err OutOfBounds.
Proof.
  intros H. unfold slice. destruct (start + len <=? blength b) eqn:E; [|done].
  apply N.leb_le in E. lia.
Qed.

Ltac invert_steps :=
  repeat match goal with
  | H : checked_add _ _ _ = Ok _ |- _ => apply checked_add_Ok in H
  | H : checked_mul _ _ _ = Ok _ |- _ => apply checked_mul_Ok in H as [? ?]
  | H : checked_sub _ _ = Ok _ |- _ => apply checked_sub_Ok in H as [? ?]
  | H : slice _ _ _ = Ok _ |- _ => apply slice_Ok in H as [? ?]
  | H : require (_ <=? _) _ = Ok _ |- _ => apply require_Ok, N.leb_le in H
  | H : require (_ =? _) _ = Ok _ |- _ => apply require_Ok, N.eqb_eq in H
  end.

(** An observation that parses lies inside the buffer, payload included. *)
Lemma parseObservation_in_buffer (start len : N) (enc : list byte) (o : Observation) :
  parseObservation start len enc = Ok o → start + len <= blength enc.
Proof.
  unfold parseObservation. intros H.
  repeat (apply bind_Ok in H as (? & ? & H)).
  invert_steps. lia.
Qed.

Lemma parseVM3_reverts (keccak256 : list byte → N) (encodedVM : list byte) :
  reverts (parseVM3 keccak256 encodedVM).
Proof.
  unfold parseVM3.
  apply reverts_bind_r; intros version _.
  apply reverts_bind_r; intros index Hi. apply checked_add_Ok in Hi.
  apply reverts_bind_r; intros _ _.
  apply reverts_bind_l.
  destruct (parseObservation index (blength encodedVM) encodedVM) as [o|e] eqn:E;
    [|by exists e].
  apply parseObservation_in_buffer in E. lia.
Qed.

Lemma quorum_eq (n : N) :
  quorum n = if n <? 256 then Ok (n * 2 / 3 + 1)
             else Err (Reverted "too many guardians").
Proof.
  unfold quorum. destruct (n <? 256) eqn:E; [|done].
  apply N.ltb_lt in E. simpl.
  unfold checked_mul, checked_add.
  destruct (n * 2 <? 2 ^ 256) eqn:E1; [|apply N.ltb_ge in E1; lia].
  simpl.
  destruct (n * 2 / 3 + 1 <? 2 ^ 256) eqn:E2; [done|].
  apply N.ltb_ge in E2.
  pose proof (N.Div0.div_le_upper_bound (n * 2) 3 512). lia.
Qed.

(** ** The signature walk *)

Section Walk.
Variable ecrecover : N → N → N → N → N.

(** One round of the loop, with the two [require]s and the array read
    spelled out. *)
Lemma verifySignatures_loop_cons hash sig rest gs i lastIndex :
  verifySignatures_loop ecrecover hash (sig :: rest) gs i lastIndex =
  if negb ((i =? 0) || (lastIndex <? sig_guardianIndex sig))
  then Err (Reverted "signature indices must be ascending")
  else if negb (sig_guardianIndex sig <? N.of_nat (length (keys gs)))
  then Err (Reverted "guardian index out of bounds")
  else match keys gs !! N.to_nat (sig_guardianIndex sig) with
       | Some key =>
           if ecrecover hash (sig_v sig) (sig_r sig) (sig_s sig) =? key
           then verifySignatures_loop ecrecover hash rest gs (i + 1)
                  (sig_guardianIndex sig)
           else Ok (false, "VM signature invalid"%string)
       | None => Err (Panic 50)
       end.
Proof.
  cbn [verifySignatures_loop]. unfold array_get.
  destruct ((i =? 0) || (lastIndex <? sig_guardianIndex sig)); [|done].
  destruct (sig_guardianIndex sig <? N.of_nat (length (keys gs))); [|done].
  cbn. destruct (keys gs !! N.to_nat (sig_guardianIndex sig)); [|done].
  cbn. by destruct (_ =? _).
Qed.

(** The bounds [require] makes the array read safe. *)
Lemma keys_in_bounds (gs : GuardianSet) (idx : N) :
  (idx <? N.of_nat (length (keys gs))) = true →
  ∃ key, keys gs !! N.to_nat idx = Some key.
Proof. intros H%N.ltb_lt. apply lookup_lt_is_Some. lia. Qed.

(** The walk has four outcomes and no other. *)
Lemma verifySignatures_loop_outcome hash sigs gs i lastIndex :
  match verifySignatures_loop ecrecover hash sigs gs i lastIndex with
  | Ok (valid, reason) =>
      (valid, reason) = (true, ""%string)
      ∨ (valid, reason) = (false, "VM signature invalid"%string)
  | Err e =>
      e = Reverted "signature indices must be ascending"
      ∨ e = Reverted "guardian index out of bounds"
  end.
Proof.
  revert i lastIndex. induction sigs as [|sig rest IH]; intros i lastIndex.
  - by left.
  - rewrite verifySignatures_loop_cons.
    destruct ((i =? 0) || _); cbn [negb]; [|by left].
    destruct (sig_guardianIndex sig <? _) eqn:Hb; cbn [negb]; [|by right].
    destruct (keys_in_bounds _ _ Hb) as [key ->].
    destruct (_ =? key); [apply IH | by right].
Qed.

Lemma lastIndex_after_cons sig pre lastIndex :
  lastIndex_after (sig :: pre) lastIndex
  = lastIndex_after pre (sig_guardianIndex sig).
Proof. unfold lastIndex_after. rewrite last_cons. by destruct (last pre). Qed.

Lemma lastIndex_after_snoc pre a lastIndex :
  lastIndex_after (pre ++ [a]) lastIndex = sig_guardianIndex a.
Proof. unfold lastIndex_after. by rewrite last_snoc. Qed.

(** The walk over [pre ++ rest] is the walk over [pre] and, if that one
    accepts, the walk over [rest] from the loop state [pre] leaves. *)
Lemma verifySignatures_loop_app hash pre rest gs i lastIndex :
  verifySignatures_loop ecrecover hash (pre ++ rest) gs i lastIndex =
  match verifySignatures_loop ecrecover hash pre gs i lastIndex with
  | Ok (true, _) =>
      verifySignatures_loop ecrecover hash rest gs
        (i + N.of_nat (length pre)) (lastIndex_after pre lastIndex)
  | other => other
  end.
Proof.
  revert i lastIndex. induction pre as [|sig pre IH]; intros i lastIndex.
  - cbn. by rewrite N.add_0_r.
  - rewrite <- app_comm_cons, !verifySignatures_loop_cons.
    destruct (negb _); [done|]. destruct (negb _); [done|].
    destruct (keys gs !! _); [|done]. destruct (_ =? _); [|done].
    rewrite IH, lastIndex_after_cons.
    replace (i + 1 + N.of_nat (length pre))
      with (i + N.of_nat (length (sig :: pre))) by (cbn [length]; lia).
    done.
Qed.

(** Over individually valid signatures only the order check can fail. *)
Lemma verifySignatures_loop_valid hash sigs gs i lastIndex :
  Forall (individually_valid ecrecover hash gs) sigs →
  verifySignatures_loop ecrecover hash sigs gs i lastIndex = Ok (true, ""%string)
  ∨ verifySignatures_loop ecrecover hash sigs gs i lastIndex
    = Err (Reverted "signature indices must be ascending").
Proof.
  intros Hall. revert i lastIndex.
  induction Hall as [|sig rest Hsig _ IH]; intros i lastIndex; [by left|].
  rewrite verifySignatures_loop_cons.
  destruct (negb _); [by right|].
  unfold individually_valid in Hsig.
  pose proof (lookup_lt_Some _ _ _ Hsig) as Hlt.
  destruct (sig_guardianIndex sig <? _) eqn:Hb; [|apply N.ltb_ge in Hb; lia].
  cbn [negb]. rewrite Hsig, N.eqb_refl. apply IH.
Qed.

(** Past the first round, an entry that does not exceed [lastIndex]
    stops the walk. *)
Lemma verifySignatures_loop_descent hash b post gs i lastIndex :
  i ≠ 0 → sig_guardianIndex b <= lastIndex →
  verifySignatures_loop ecrecover hash (b :: post) gs i lastIndex
  = Err (Reverted "signature indices must be ascending").
Proof.
  intros Hi Hle. rewrite verifySignatures_loop_cons.
  destruct (i =? 0) eqn:E0; [apply N.eqb_eq in E0; done|].
  destruct (lastIndex <? sig_guardianIndex b) eqn:E1;
    [apply N.ltb_lt in E1; lia | done].
Qed.

(** An entry that passes the order check but names no guardian stops
    the walk as well. *)
Lemma verifySignatures_loop_far hash b post gs i lastIndex :
  i = 0 ∨ lastIndex < sig_guardianIndex b →
  N.of_nat (length (keys gs)) <= sig_guardianIndex b →
  verifySignatures_loop ecrecover hash (b :: post) gs i lastIndex
  = Err (Reverted "guardian index out of bounds").
Proof.
  intros Hord Hfar. rewrite verifySignatures_loop_cons.
  replace ((i =? 0) || (lastIndex <? sig_guardianIndex b)) with true.
  - destruct (sig_guardianIndex b <? _) eqn:E; [apply N.ltb_lt in E; lia | done].
  - symmetry. apply orb_true_iff.
    destruct Hord as [->|H]; [by left | right; by apply N.ltb_lt].
Qed.

(** An entry that passes the order check and names a guardian, but does
    not recover to the key of that guardian, ends the walk with a
    returned verdict, whatever comes behind it. *)
Lemma verifySignatures_loop_invalid hash b post gs i lastIndex key :
  i = 0 ∨ lastIndex < sig_guardianIndex b →
  keys gs !! N.to_nat (sig_guardianIndex b) = Some key →
  ecrecover hash (sig_v b) (sig_r b) (sig_s b) ≠ key →
  verifySignatures_loop ecrecover hash (b :: post) gs i lastIndex
  = Ok (false, "VM signature invalid"%string).
Proof.
  intros Hord Hk Hne. rewrite verifySignatures_loop_cons.
  replace ((i =? 0) || (lastIndex <? sig_guardianIndex b)) with true.
  - pose proof (lookup_lt_Some _ _ _ Hk) as Hlt.
    replace (sig_guardianIndex b <? N.of_nat (length (keys gs))) with true
      by (symmetry; apply N.ltb_lt; lia).
    cbn [negb]. rewrite Hk.
    destruct (_ =? key) eqn:E; [by apply N.eqb_eq in E | done].
  - symmetry. apply orb_true_iff.
    destruct Hord as [->|H]; [by left | right; by apply N.ltb_lt].
Qed.
End Walk.

(** ** Header verification *)

Section Properties.
Variable keccak256 : list byte → N.
Variable ecrecover : N → N → N → N → N.

(** Past the cache, guardian-set, expiry and quorum checks the verdict
    is the one of the signature walk. *)
Lemma verifyHeader_reaches_walk (st : State) (vm : Header) (needed : N) :
  let guardianSet := getGuardianSet st (hdr_guardianSetIndex vm) in
  verifiedHashCached st (hdr_hash vm) = false →
  keys guardianSet ≠ [] →
  negb (hdr_guardianSetIndex vm =? getCurrentGuardianSetIndex st)
    && (expirationTime guardianSet <? block_timestamp st) = false →
  quorum (N.of_nat (length (keys guardianSet))) = Ok needed →
  needed <= N.of_nat (length (hdr_signatures vm)) →
  verifyHeader ecrecover st vm =
  '(signaturesValid, invalidReason) ←
    verifySignatures ecrecover (hdr_hash vm) (hdr_signatures vm) guardianSet;
  if negb signaturesValid then Ok (false, invalidReason)
  else Ok (true, ""%string).
Proof.
  intros gs Hc Hk He Hq Hn. unfold verifyHeader. fold gs.
  rewrite Hc, He, Hq.
  destruct (N.of_nat (length (keys gs)) =? 0) eqn:E0.
  { apply N.eqb_eq in E0. destruct (keys gs); [done | cbn in E0; lia]. }
  cbn. destruct (_ <? needed) eqn:E1; [apply N.ltb_lt in E1; lia | done].
Qed.

(** Every way [verifyHeader] can end. *)
Lemma verifyHeader_outcome (st : State) (vm : Header) :
  match verifyHeader ecrecover st vm with
  | Ok (true, reason) => reason = ""%string
  | Ok (false, reason) =>
      reason ∈ ["invalid guardian set"; "guardian set has expired";
                "no quorum"; "VM signature invalid"]%string
  | Err e =>
      e ∈ [Reverted "too many guardians";
           Reverted "signature indices must be ascending";
           Reverted "guardian index out of bounds"]
  end.
Proof.
  unfold verifyHeader.
  destruct (verifiedHashCached _ _); [done|].
  destruct (_ =? 0); [set_solver|].
  destruct (negb _ && _); [set_solver|].
  rewrite quorum_eq. destruct (_ <? 256); [|set_solver]. cbn.
  destruct (_ <? _); [set_solver|].
  unfold verifySignatures.
  pose proof (verifySignatures_loop_outcome ecrecover (hdr_hash vm)
                (hdr_signatures vm)
                (getGuardianSet st (hdr_guardianSetIndex vm)) 0 0) as H.
  destruct (verifySignatures_loop _ _ _ _ _ _) as [[valid reason]|e]; cbn.
  - destruct H as [[= -> ->]|[= -> ->]]; cbn; [done | set_solver].
  - destruct H as [->| ->]; set_solver.
Qed.

(** C7: a hash marked verified in the cache makes [verifyHeader] return
    [(true, "")] at once, whatever the signatures, the guardian set and
    the clock; so does the header of any message right after
    [updateVerifiedCacheStatus(hash, true)], even with no signature and
    an unknown guardian set. *)
Theorem verifyHeader_cache_bypass (st : State) (vm : Header) :
  (verifiedHashCached st (hdr_hash vm) = true →
   verifyHeader ecrecover st vm = Ok (true, ""%string))
  ∧ verifyHeader ecrecover (updateVerifiedCacheStatus (hdr_hash vm) true st)
      {| hdr_guardianSetIndex := hdr_guardianSetIndex vm;
         hdr_signatures := [];
         hdr_hash := hdr_hash vm |} = Ok (true, ""%string).
Proof.
  split.
  - intros Hc. unfold verifyHeader. by rewrite Hc.
  - unfold verifyHeader, verifiedHashCached, updateVerifiedCacheStatus. cbn.
    by rewrite lookup_insert_eq.
Qed.

(** C8: [verifyHeader] answers "guardian set has expired" only for a
    guardian set that is not the current one and whose expiration time
    lies before the block time; and when the check is reached (hash not
    cached, guardian set with keys) it answers so for every such set. A
    current set, whatever its expiration time, and a set that has not
    expired get past the check, on to the quorum and the signatures. *)
Theorem verifyHeader_expiry_check (st : State) (vm : Header) :
  let guardianSet := getGuardianSet st (hdr_guardianSetIndex vm) in
  (verifyHeader ecrecover st vm = Ok (false, "guardian set has expired"%string) →
   hdr_guardianSetIndex vm ≠ getCurrentGuardianSetIndex st
   ∧ expirationTime guardianSet < block_timestamp st)
  ∧ (verifiedHashCached st (hdr_hash vm) = false →
     keys guardianSet ≠ [] →
     hdr_guardianSetIndex vm ≠ getCurrentGuardianSetIndex st →
     expirationTime guardianSet < block_timestamp st →
     verifyHeader ecrecover st vm = Ok (false, "guardian set has expired"%string))
  ∧ (verifiedHashCached st (hdr_hash vm) = false →
     keys guardianSet ≠ [] →
     hdr_guardianSetIndex vm = getCurrentGuardianSetIndex st
     ∨ block_timestamp st <= expirationTime guardianSet →
     verifyHeader ecrecover st vm =
     needed ← quorum (N.of_nat (length (keys guardianSet)));
     if N.of_nat (length (hdr_signatures vm)) <? needed
     then Ok (false, "no quorum"%string)
     else
       '(signaturesValid, invalidReason) ←
         verifySignatures ecrecover (hdr_hash vm) (hdr_signatures vm) guardianSet;
       if negb signaturesValid then Ok (false, invalidReason)
       else Ok (true, ""%string)).
Proof.
  intros gs.
  assert (Hkeys : keys gs ≠ [] → (N.of_nat (length (keys gs)) =? 0) = false).
  { intros Hk. apply N.eqb_neq. destruct (keys gs); [done | cbn; lia]. }
  split; [|split].
  - unfold verifyHeader. fold gs.
    destruct (verifiedHashCached _ _); [done|].
    destruct (_ =? 0); [done|].
    destruct (negb _ && _) eqn:E.
    + intros _. apply andb_true_iff in E as [E1 E2].
      apply negb_true_iff, N.eqb_neq in E1. by apply N.ltb_lt in E2.
    + rewrite quorum_eq. destruct (_ <? 256); [|done]. cbn.
      destruct (N.of_nat (length (hdr_signatures vm)) <? _); [done|].
      unfold verifySignatures.
      pose proof (verifySignatures_loop_outcome ecrecover (hdr_hash vm)
                    (hdr_signatures vm) gs 0 0) as H.
      destruct (verifySignatures_loop _ _ _ _ _ _) as [[valid reason]|e]; cbn;
        [|done].
      by destruct H as [[= -> ->]|[= -> ->]].
  - intros Hc Hk Hidx Hexp. unfold verifyHeader. fold gs.
    rewrite Hc, (Hkeys Hk).
    apply N.eqb_neq in Hidx. apply N.ltb_lt in Hexp.
    by rewrite Hidx, Hexp.
  - intros Hc Hk Hpass. unfold verifyHeader. fold gs.
    rewrite Hc, (Hkeys Hk).
    replace (negb (hdr_guardianSetIndex vm =? getCurrentGuardianSetIndex st)
             && (expirationTime gs <? block_timestamp st)) with false; [done|].
    symmetry. apply andb_false_iff.
    destruct Hpass as [Hcur|Hexp].
    + left. apply negb_false_iff. by apply N.eqb_eq.
    + right. by apply N.ltb_ge.
Qed.

(** C3: [parseVM3] aborts on every buffer. [parseObservation] is handed
    the length of the whole buffer although four bytes are already
    behind the index, so the payload slice would have to end four bytes
    past the end of the buffer. [parseAndVerifyVM3] and the version-3
    branch of [parseAndVerifyVAA] abort with it. *)
Theorem parseVM3_never_returns (st : State) (encodedVM : list byte) :
  reverts (parseVM3 keccak256 encodedVM)
  ∧ reverts (parseAndVerifyVM3 keccak256 st encodedVM)
  ∧ (toUint8 encodedVM 0 = Ok 3 →
     reverts (parseAndVerifyVAA keccak256 ecrecover st encodedVM))
  ∧ reverts (parseObservation 4 (blength encodedVM) encodedVM)
  ∧ slice encodedVM (4 + 51) (blength encodedVM - 51) = Err OutOfBounds.
Proof.
  assert (H3 : reverts (parseAndVerifyVM3 keccak256 st encodedVM)).
  { unfold parseAndVerifyVM3. apply reverts_bind_l, parseVM3_reverts. }
  split; [apply parseVM3_reverts|]. split; [exact H3|].
  split; [|split].
  - intros Hv. unfold parseAndVerifyVAA. rewrite Hv. cbn.
    by apply reverts_bind_l.
  - destruct (parseObservation 4 (blength encodedVM) encodedVM) as [o|e] eqn:E;
      [|by exists e].
    apply parseObservation_in_buffer in E. lia.
  - apply slice_past_end. lia.
Qed.

(** C6: below 256 guardians the quorum is [n * 2 / 3 + 1], rounded
    down before the increment; sizes 1, 2, 3, 4, 7, 255 need 1, 2, 3, 3,
    5, 171 signatures. From 256 guardians on, [quorum] aborts with
    "too many guardians", and so does [verifyHeader] once it gets to
    the quorum, whatever the number of signatures. *)
Theorem quorum_formula (n : N) :
  quorum n = (if n <? 256 then Ok (n * 2 / 3 + 1)
              else Err (Reverted "too many guardians"))
  ∧ quorum <$> [1; 2; 3; 4; 7; 255] = Ok <$> [1; 2; 3; 3; 5; 171]
  ∧ quorum 256 = Err (Reverted "too many guardians")
  ∧ ∀ (st : State) (vm : Header),
      let guardianSet := getGuardianSet st (hdr_guardianSetIndex vm) in
      verifiedHashCached st (hdr_hash vm) = false →
      negb (hdr_guardianSetIndex vm =? getCurrentGuardianSetIndex st)
        && (expirationTime guardianSet <? block_timestamp st) = false →
      256 <= N.of_nat (length (keys guardianSet)) →
      verifyHeader ecrecover st vm = Err (Reverted "too many guardians").
Proof.
  split; [apply quorum_eq|]. split; [reflexivity|]. split; [reflexivity|].
  intros st vm gs Hc He Hn. unfold verifyHeader.
  rewrite Hc. fold gs.
  destruct (N.of_nat (length (keys gs)) =? 0) eqn:E0;
    [apply N.eqb_eq in E0; lia|].
  rewrite He, quorum_eq.
  destruct (N.of_nat (length (keys gs)) <? 256) eqn:E;
    [apply N.ltb_lt in E; lia | done].
Qed.

(** C4, as amended: zero keys, an expired guardian set, a missing quorum
    and an invalid signature are returned by [verifyHeader] as
    [(false, reason)], with the reasons "invalid guardian set", "guardian
    set has expired", "no quorum" and "VM signature invalid", and no
    other failure is returned. A signature that does not ascend and a
    signature index outside the guardian set are not returned: the walk
    aborts on them (as [quorum] does on too many guardians), and
    [verifyHeader] aborts with the walk. *)
Theorem verifyHeader_failure_modes (st : State) (vm : Header) :
  (∀ reason, verifyHeader ecrecover st vm = Ok (false, reason) →
     reason ∈ ["invalid guardian set"; "guardian set has expired";
               "no quorum"; "VM signature invalid"]%string)
  ∧ (∀ e, verifyHeader ecrecover st vm = Err e →
     e ∈ [Reverted "too many guardians";
          Reverted "signature indices must be ascending";
          Reverted "guardian index out of bounds"])
  ∧ (∀ hash pre sig post gs,
       verifySignatures ecrecover hash pre gs = Ok (true, ""%string) →
       pre ≠ [] →
       sig_guardianIndex sig <= lastIndex_after pre 0 →
       verifySignatures ecrecover hash (pre ++ sig :: post) gs
       = Err (Reverted "signature indices must be ascending"))
  ∧ (∀ hash pre sig post gs,
       verifySignatures ecrecover hash pre gs = Ok (true, ""%string) →
       pre = [] ∨ lastIndex_after pre 0 < sig_guardianIndex sig →
       N.of_nat (length (keys gs)) <= sig_guardianIndex sig →
       verifySignatures ecrecover hash (pre ++ sig :: post) gs
       = Err (Reverted "guardian index out of bounds"))
  ∧ (∀ needed e,
       let guardianSet := getGuardianSet st (hdr_guardianSetIndex vm) in
       verifiedHashCached st (hdr_hash vm) = false →
       keys guardianSet ≠ [] →
       negb (hdr_guardianSetIndex vm =? getCurrentGuardianSetIndex st)
         && (expirationTime guardianSet <? block_timestamp st) = false →
       quorum (N.of_nat (length (keys guardianSet))) = Ok needed →
       needed <= N.of_nat (length (hdr_signatures vm)) →
       verifySignatures ecrecover (hdr_hash vm) (hdr_signatures vm) guardianSet
       = Err e →
       verifyHeader ecrecover st vm = Err e)
  ∧ (verifiedHashCached st (hdr_hash vm) = false →
     keys (getGuardianSet st (hdr_guardianSetIndex vm)) = [] →
     verifyHeader ecrecover st vm = Ok (false, "invalid guardian set"%string))
  ∧ (verifiedHashCached st (hdr_hash vm) = false →
     keys (getGuardianSet st (hdr_guardianSetIndex vm)) ≠ [] →
     hdr_guardianSetIndex vm ≠ getCurrentGuardianSetIndex st →
     expirationTime (getGuardianSet st (hdr_guardianSetIndex vm))
     < block_timestamp st →
     verifyHeader ecrecover st vm
     = Ok (false, "guardian set has expired"%string))
  ∧ (∀ needed,
       let guardianSet := getGuardianSet st (hdr_guardianSetIndex vm) in
       verifiedHashCached st (hdr_hash vm) = false →
       keys guardianSet ≠ [] →
       negb (hdr_guardianSetIndex vm =? getCurrentGuardianSetIndex st)
         && (expirationTime guardianSet <? block_timestamp st) = false →
       quorum (N.of_nat (length (keys guardianSet))) = Ok needed →
       N.of_nat (length (hdr_signatures vm)) < needed →
       verifyHeader ecrecover st vm = Ok (false, "no quorum"%string))
  ∧ (∀ hash pre sig post gs key,
       verifySignatures ecrecover hash pre gs = Ok (true, ""%string) →
       pre = [] ∨ lastIndex_after pre 0 < sig_guardianIndex sig →
       keys gs !! N.to_nat (sig_guardianIndex sig) = Some key →
       ecrecover hash (sig_v sig) (sig_r sig) (sig_s sig) ≠ key →
       verifySignatures ecrecover hash (pre ++ sig :: post) gs
       = Ok (false, "VM signature invalid"%string))
  ∧ (∀ needed reason,
       let guardianSet := getGuardianSet st (hdr_guardianSetIndex vm) in
       verifiedHashCached st (hdr_hash vm) = false →
       keys guardianSet ≠ [] →
       negb (hdr_guardianSetIndex vm =? getCurrentGuardianSetIndex st)
         && (expirationTime guardianSet <? block_timestamp st) = false →
       quorum (N.of_nat (length (keys guardianSet))) = Ok needed →
       needed <= N.of_nat (length (hdr_signatures vm)) →
       verifySignatures ecrecover (hdr_hash vm) (hdr_signatures vm) guardianSet
       = Ok (false, reason) →
       verifyHeader ecrecover st vm = Ok (false, reason)).
Proof.
  pose proof (verifyHeader_outcome st vm) as Hout.
  assert (Hkeys : keys (getGuardianSet st (hdr_guardianSetIndex vm)) ≠ [] →
    (N.of_nat (length (keys (getGuardianSet st (hdr_guardianSetIndex vm)))) =? 0)
    = false).
  { intros Hk. apply N.eqb_neq.
    destruct (keys (getGuardianSet st (hdr_guardianSetIndex vm)));
      [done | cbn; lia]. }
  repeat apply conj.
  - intros reason E. by rewrite E in Hout.
  - intros e E. by rewrite E in Hout.
  - intros hash pre sig post gs Hpre Hne Hle. unfold verifySignatures in *.
    rewrite verifySignatures_loop_app, Hpre.
    apply verifySignatures_loop_descent; [|done].
    destruct pre; [done | cbn [length]; lia].
  - intros hash pre sig post gs Hpre Hord Hfar. unfold verifySignatures in *.
    rewrite verifySignatures_loop_app, Hpre.
    apply verifySignatures_loop_far; [|done].
    destruct Hord as [->|H]; [by left | by right].
  - intros needed e gs Hc Hk He Hq Hn Hw.
    rewrite (verifyHeader_reaches_walk st vm needed) by done.
    fold gs. by rewrite Hw.
  - intros Hc Hk. unfold verifyHeader. by rewrite Hc, Hk.
  - intros Hc Hk Hidx Hexp. unfold verifyHeader. rewrite Hc, (Hkeys Hk).
    apply N.eqb_neq in Hidx. apply N.ltb_lt in Hexp. by rewrite Hidx, Hexp.
  - intros needed gs Hc Hk He Hq Hn. subst gs. unfold verifyHeader.
    rewrite Hc, (Hkeys Hk), He, Hq. cbn.
    by replace (N.of_nat (length (hdr_signatures vm)) <? needed) with true
      by (symmetry; by apply N.ltb_lt).
  - intros hash pre sig post gs key Hpre Hord Hk Hne. unfold verifySignatures in *.
    rewrite verifySignatures_loop_app, Hpre.
    apply (verifySignatures_loop_invalid ecrecover _ _ _ _ _ _ key); [|done..].
    destruct Hord as [->|H]; [by left | by right].
  - intros needed reason gs Hc Hk He Hq Hn Hw.
    rewrite (verifyHeader_reaches_walk st vm needed) by done.
    fold gs. by rewrite Hw.
Qed.

(** C9, as amended: a signature list in which some entry does not
    exceed the entry before it is never accepted by the walk: it ends in
    one of the three failures of the walk. The walk stops at its first
    failure: it aborts with "signature indices must be ascending" when
    every entry up to the repeated or descending one recovers to the
    guardian key at its index, in particular when all signatures are
    individually valid; an entry before that which is out of range or
    does not recover to its guardian key is reported instead, whatever
    the order of the entries behind it. The first entry is not
    order-checked: a valid signature passes alone with any index inside
    the guardian set. *)
Theorem verifySignatures_order_enforced (hash : N) (gs : GuardianSet)
    (pre : list Signature) (a b : Signature) (post : list Signature) :
  sig_guardianIndex b <= sig_guardianIndex a →
  (∀ reason, verifySignatures ecrecover hash (pre ++ a :: b :: post) gs
             ≠ Ok (true, reason))
  ∧ (Forall (individually_valid ecrecover hash gs) (pre ++ [a]) →
     verifySignatures ecrecover hash (pre ++ a :: b :: post) gs
     = Err (Reverted "signature indices must be ascending"))
  ∧ (∀ first, individually_valid ecrecover hash gs first →
     verifySignatures ecrecover hash [first] gs = Ok (true, ""%string))
  ∧ (verifySignatures ecrecover hash (pre ++ a :: b :: post) gs
     = Err (Reverted "signature indices must be ascending")
     ∨ verifySignatures ecrecover hash (pre ++ a :: b :: post) gs
       = Err (Reverted "guardian index out of bounds")
     ∨ verifySignatures ecrecover hash (pre ++ a :: b :: post) gs
       = Ok (false, "VM signature invalid"%string))
  ∧ (∀ before bad behind key,
       verifySignatures ecrecover hash before gs = Ok (true, ""%string) →
       before = [] ∨ lastIndex_after before 0 < sig_guardianIndex bad →
       keys gs !! N.to_nat (sig_guardianIndex bad) = Some key →
       ecrecover hash (sig_v bad) (sig_r bad) (sig_s bad) ≠ key →
       verifySignatures ecrecover hash (before ++ bad :: behind) gs
       = Ok (false, "VM signature invalid"%string))
  ∧ (∀ before bad behind,
       verifySignatures ecrecover hash before gs = Ok (true, ""%string) →
       before = [] ∨ lastIndex_after before 0 < sig_guardianIndex bad →
       N.of_nat (length (keys gs)) <= sig_guardianIndex bad →
       verifySignatures ecrecover hash (before ++ bad :: behind) gs
       = Err (Reverted "guardian index out of bounds")).
Proof.
  intros Hle.
  assert (Hstop : ∀ r,
    verifySignatures_loop ecrecover hash (pre ++ [a]) gs 0 0 = Ok (true, r) →
    verifySignatures ecrecover hash (pre ++ a :: b :: post) gs
    = Err (Reverted "signature indices must be ascending")).
  { intros r Hr. unfold verifySignatures.
    rewrite (cons_middle a pre), app_assoc, verifySignatures_loop_app, Hr.
    rewrite lastIndex_after_snoc.
    apply verifySignatures_loop_descent; [|done].
    rewrite length_app. cbn [length]. lia. }
  assert (Hnever : ∀ reason,
    verifySignatures ecrecover hash (pre ++ a :: b :: post) gs ≠ Ok (true, reason)).
  { intros reason Hacc.
    destruct (verifySignatures_loop ecrecover hash (pre ++ [a]) gs 0 0)
      as [[[] r]|e] eqn:E.
    + by rewrite (Hstop r) in Hacc.
    + unfold verifySignatures in Hacc.
      by rewrite (cons_middle a pre), app_assoc, verifySignatures_loop_app, E
        in Hacc.
    + unfold verifySignatures in Hacc.
      by rewrite (cons_middle a pre), app_assoc, verifySignatures_loop_app, E
        in Hacc. }
  repeat apply conj.
  - exact Hnever.
  - intros Hall.
    destruct (verifySignatures_loop_valid ecrecover hash _ gs 0 0 Hall) as [E|E].
    + by apply (Hstop ""%string).
    + unfold verifySignatures.
      by rewrite (cons_middle a pre), app_assoc, verifySignatures_loop_app, E.
  - intros first Hfirst. unfold verifySignatures.
    destruct (verifySignatures_loop_valid ecrecover hash [first] gs 0 0) as [E|E];
      [by constructor | done |].
    rewrite verifySignatures_loop_cons in E. cbn in E.
    unfold individually_valid in Hfirst.
    pose proof (lookup_lt_Some _ _ _ Hfirst) as Hlt.
    destruct (sig_guardianIndex first <? _) eqn:Hb;
      [|apply N.ltb_ge in Hb; lia].
    cbn in E. by rewrite Hfirst, N.eqb_refl in E.
  - pose proof (verifySignatures_loop_outcome ecrecover hash
                  (pre ++ a :: b :: post) gs 0 0) as Hout.
    fold (verifySignatures ecrecover hash (pre ++ a :: b :: post) gs) in Hout.
    destruct (verifySignatures ecrecover hash (pre ++ a :: b :: post) gs)
      as [[valid reason]|e] eqn:E.
    + destruct Hout as [[= -> ->]|[= -> ->]]; [by destruct (Hnever ""%string) | auto].
    + destruct Hout as [->| ->]; auto.
  - intros before bad behind key Hpre Hord Hk Hne. unfold verifySignatures in *.
    rewrite verifySignatures_loop_app, Hpre.
    apply (verifySignatures_loop_invalid ecrecover _ _ _ _ _ _ key); [|done..].
    destruct Hord as [->|H]; [by left | by right].
  - intros before bad behind Hpre Hord Hfar. unfold verifySignatures in *.
    rewrite verifySignatures_loop_app, Hpre.
    apply verifySignatures_loop_far; [|done].
    destruct Hord as [->|H]; [by left | by right].
Qed.

(** ** Entry points *)

Lemma parseVM_version (encodedVM : list byte) (vm : VM) :
  parseVM keccak256 encodedVM = Ok vm → toUint8 encodedVM 0 = Ok 1.
Proof.
  unfold parseVM. intros H.
  apply bind_Ok in H as (version & Hv & H).
  apply bind_Ok in H as (index & _ & H).
  apply bind_Ok in H as (u & Hr & _).
  invert_steps. by subst.
Qed.

(** C10, as amended: on a first byte other than 1 and 3 (2 included)
    [parseAndVerifyVAA] does not abort; it returns the zero observation
    with [valid = false] and the fixed reason "Invalid version", which
    does not carry the byte. *)
Theorem parseAndVerifyVAA_unknown_version (st : State)
    (encodedVM : list byte) (version : N) :
  toUint8 encodedVM 0 = Ok version →
  version ≠ 1 → version ≠ 3 →
  parseAndVerifyVAA keccak256 ecrecover st encodedVM
  = Ok (emptyObservation, false, "Invalid version"%string).
Proof.
  intros Hv H1 H3. unfold parseAndVerifyVAA. rewrite Hv. cbn.
  apply N.eqb_neq in H1, H3. by rewrite H1, H3.
Qed.

(** [verifyHeader] reads the state in four places. *)
Lemma verifyHeader_reads (recover : N → N → N → N → N) (st1 st2 : State)
    (vm : Header) :
  verifiedHashCached st1 (hdr_hash vm) = verifiedHashCached st2 (hdr_hash vm) →
  getGuardianSet st1 (hdr_guardianSetIndex vm)
  = getGuardianSet st2 (hdr_guardianSetIndex vm) →
  getCurrentGuardianSetIndex st1 = getCurrentGuardianSetIndex st2 →
  block_timestamp st1 = block_timestamp st2 →
  verifyHeader recover st1 vm = verifyHeader recover st2 vm.
Proof.
  intros Hc Hg Hi Ht. unfold verifyHeader. by rewrite Hc, Hg, Hi, Ht.
Qed.

(** On a buffer that parses as a V1 message the unified entry point
    hands out the verdict of [verifyHeader]. *)
Lemma parseAndVerifyVAA_V1 (recover : N → N → N → N → N) (st : State)
    (encodedVM : list byte) (vm : VM) :
  parseVM keccak256 encodedVM = Ok vm →
  parseAndVerifyVAA keccak256 recover st encodedVM =
  '(valid, reason) ←
    verifyHeader recover st
      {| hdr_guardianSetIndex := vm_guardianSetIndex vm;
         hdr_signatures := vm_signatures vm;
         hdr_hash := vm_hash vm |};
  Ok (observation_of_VM vm, valid, reason).
Proof.
  intros Hp. unfold parseAndVerifyVAA. rewrite (parseVM_version _ _ Hp). cbn.
  unfold parseAndVerifyVM. rewrite Hp. cbn. unfold verifyVM.
  by destruct (verifyHeader recover st _) as [[valid reason]|e].
Qed.

(** A header accepted without a cache hit has a first signature, and
    that signature names a guardian key. *)
Lemma verifyHeader_accepted_first (recover : N → N → N → N → N) (st : State)
    (vm : Header) (r : string) :
  let guardianSet := getGuardianSet st (hdr_guardianSetIndex vm) in
  verifiedHashCached st (hdr_hash vm) = false →
  verifyHeader recover st vm = Ok (true, r) →
  ∃ sig rest key,
    hdr_signatures vm = sig :: rest
    ∧ keys guardianSet !! N.to_nat (sig_guardianIndex sig) = Some key
    ∧ (N.of_nat (length (keys guardianSet)) =? 0) = false
    ∧ negb (hdr_guardianSetIndex vm =? getCurrentGuardianSetIndex st)
        && (expirationTime guardianSet <? block_timestamp st) = false
    ∧ (N.of_nat (length (keys guardianSet)) <? 256) = true
    ∧ (N.of_nat (length (hdr_signatures vm))
       <? N.of_nat (length (keys guardianSet)) * 2 / 3 + 1) = false.
Proof.
  intros gs Hc. unfold verifyHeader. fold gs. rewrite Hc.
  destruct (N.of_nat (length (keys gs)) =? 0) eqn:E0; [done|].
  destruct (negb _ && _) eqn:Ee; [done|].
  rewrite quorum_eq.
  destruct (N.of_nat (length (keys gs)) <? 256) eqn:E256; [|done]. cbn.
  destruct (N.of_nat (length (hdr_signatures vm)) <? _) eqn:Eq; [done|].
  destruct (hdr_signatures vm) as [|sig rest] eqn:Hs.
  { apply N.ltb_ge in Eq. revert Eq.
    generalize (N.of_nat (length (keys gs)) * 2 / 3). intros d Eq.
    cbn [length N.of_nat] in Eq. lia. }
  unfold verifySignatures. rewrite verifySignatures_loop_cons.
  intros Hv.
  destruct (negb ((0 =? 0) || (0 <? sig_guardianIndex sig))); [by cbn in Hv|].
  destruct (negb (sig_guardianIndex sig <? N.of_nat (length (keys gs))));
    [by cbn in Hv|].
  destruct (keys gs !! N.to_nat (sig_guardianIndex sig)) as [key|] eqn:Hk;
    [|by cbn in Hv].
  by exists sig, rest, key.
Qed.

(** With a recovery that misses the key of the first signature, the same
    header is turned down for its signature. *)
Lemma verifyHeader_wrong_signer (recover : N → N → N → N → N) (st : State)
    (vm : Header) (sig : Signature) (rest : list Signature) (key : N) :
  let guardianSet := getGuardianSet st (hdr_guardianSetIndex vm) in
  verifiedHashCached st (hdr_hash vm) = false →
  hdr_signatures vm = sig :: rest →
  keys guardianSet !! N.to_nat (sig_guardianIndex sig) = Some key →
  (N.of_nat (length (keys guardianSet)) =? 0) = false →
  negb (hdr_guardianSetIndex vm =? getCurrentGuardianSetIndex st)
    && (expirationTime guardianSet <? block_timestamp st) = false →
  (N.of_nat (length (keys guardianSet)) <? 256) = true →
  (N.of_nat (length (hdr_signatures vm))
   <? N.of_nat (length (keys guardianSet)) * 2 / 3 + 1) = false →
  recover (hdr_hash vm) (sig_v sig) (sig_r sig) (sig_s sig) ≠ key →
  verifyHeader recover st vm = Ok (false, "VM signature invalid"%string).
Proof.
  intros gs Hc Hs Hk E0 Ee E256 Eq Hne. unfold verifyHeader. fold gs.
  rewrite Hc, E0, Ee, quorum_eq, E256. cbn. rewrite Eq.
  unfold verifySignatures. rewrite Hs.
  by rewrite (verifySignatures_loop_invalid recover _ _ _ _ _ _ key);
    [|by left|done|done].
Qed.

(** A verdict in favour of a message whose hash is not in the cache
    hangs on signature recovery: some recovery turns the same call, in
    the same state, into a rejection. *)
Lemma uncached_verdict_needs_recovery (recover : N → N → N → N → N)
    (st : State) (encodedVM : list byte) (vm : VM)
    (observation : Observation) (reason : string) :
  parseVM keccak256 encodedVM = Ok vm →
  verifiedHashCached st (vm_hash vm) = false →
  parseAndVerifyVAA keccak256 recover st encodedVM
  = Ok (observation, true, reason) →
  ∃ recover',
    parseAndVerifyVAA keccak256 recover' st encodedVM
    = Ok (observation, false, "VM signature invalid"%string).
Proof.
  intros Hp Hc Hacc. rewrite (parseAndVerifyVAA_V1 _ _ _ _ Hp) in Hacc.
  apply bind_Ok in Hacc as ([valid reason'] & Hv & Hacc).
  injection Hacc as <- -> ->.
  set (header := {| hdr_guardianSetIndex := vm_guardianSetIndex vm;
                    hdr_signatures := vm_signatures vm;
                    hdr_hash := vm_hash vm |}) in *.
  destruct (verifyHeader_accepted_first recover st header reason Hc Hv)
    as (sig & rest & key & Hs & Hk & E0 & Ee & E256 & Eq).
  exists (λ _ _ _ _, key + 1).
  rewrite (parseAndVerifyVAA_V1 _ _ _ _ Hp). fold header.
  rewrite (verifyHeader_wrong_signer _ st header sig rest key); try done.
  lia.
Qed.

(** C5, as amended: a second call of [parseAndVerifyVAA] returns the same
    [(Observation, valid, reason)] as the first: the entry point is a
    view, so the second call finds the state of the first, and its result
    is the same in every state with the same guardian sets, current
    index, clock and cache. Nothing is written to the cache in between:
    the call is served from the cache, valid whatever signature recovery
    yields, exactly when the hash of the message was marked verified
    before the first call; a valid verdict on a hash that is not in the
    cache comes from signature recovery again. *)
Theorem parseAndVerifyVAA_twice (st : State) (encodedVM : list byte) :
  twice (call_view (λ s, parseAndVerifyVAA keccak256 ecrecover s encodedVM)) st
  = (r ← parseAndVerifyVAA keccak256 ecrecover st encodedVM; Ok (r, r, st))
  ∧ (∀ vm recover,
       parseVM keccak256 encodedVM = Ok vm →
       verifiedHashCached st (vm_hash vm) = true →
       parseAndVerifyVAA keccak256 recover st encodedVM
       = Ok (observation_of_VM vm, true, ""%string))
  ∧ (∀ st',
       (∀ hash, verifiedHashCached st hash = verifiedHashCached st' hash) →
       (∀ index, getGuardianSet st index = getGuardianSet st' index) →
       getCurrentGuardianSetIndex st = getCurrentGuardianSetIndex st' →
       block_timestamp st = block_timestamp st' →
       parseAndVerifyVAA keccak256 ecrecover st encodedVM
       = parseAndVerifyVAA keccak256 ecrecover st' encodedVM)
  ∧ (∀ vm,
       parseVM keccak256 encodedVM = Ok vm →
       (∀ recover,
          parseAndVerifyVAA keccak256 recover st encodedVM
          = Ok (observation_of_VM vm, true, ""%string)) →
       verifiedHashCached st (vm_hash vm) = true)
  ∧ (∀ vm observation reason,
       parseVM keccak256 encodedVM = Ok vm →
       verifiedHashCached st (vm_hash vm) = false →
       parseAndVerifyVAA keccak256 ecrecover st encodedVM
       = Ok (observation, true, reason) →
       ∃ recover,
         parseAndVerifyVAA keccak256 recover st encodedVM
         = Ok (observation, false, "VM signature invalid"%string)).
Proof.
  repeat apply conj.
  - unfold twice, call_view.
    destruct (parseAndVerifyVAA keccak256 ecrecover st encodedVM) as [r|e] eqn:E;
      cbn; [by rewrite E | done].
  - intros vm recover Hp Hc. unfold parseAndVerifyVAA.
    rewrite (parseVM_version _ _ Hp). cbn.
    unfold parseAndVerifyVM. rewrite Hp. cbn.
    unfold verifyVM, verifyHeader. cbn. by rewrite Hc.
  - intros st' Hc Hg Hi Ht. unfold parseAndVerifyVAA.
    destruct (toUint8 encodedVM 0) as [version|e]; [cbn|done].
    destruct (version =? 1).
    + unfold parseAndVerifyVM.
      destruct (parseVM keccak256 encodedVM) as [vm|e]; [cbn|done].
      unfold verifyVM. by rewrite (verifyHeader_reads ecrecover st st').
    + destruct (version =? 3); [|done].
      unfold parseAndVerifyVM3.
      destruct (parseVM3 keccak256 encodedVM) as [vm|e]; [cbn|done].
      unfold verifyVM3. by rewrite Hc.
  - intros vm Hp Hall.
    destruct (verifiedHashCached st (vm_hash vm)) eqn:Hc; [done|].
    destruct (uncached_verdict_needs_recovery ecrecover st encodedVM vm _ _
                Hp Hc (Hall ecrecover)) as [recover Hrej].
    by rewrite (Hall recover) in Hrej.
  - intros vm observation reason Hp Hc Hacc.
    by apply (uncached_verdict_needs_recovery ecrecover st encodedVM vm _ reason).
Qed.

(** ** The batch parser and its cache writes *)

Lemma updateAll_other (hashes : list N) (status : bool) (st : State) (h : N) :
  h ∉ hashes →
  verifiedHashCached (updateAll hashes status st) h = verifiedHashCached st h.
Proof.
  revert st. induction hashes as [|x l IH]; intros st Hn; [done|].
  apply not_elem_of_cons in Hn as [Hx Hl].
  cbn. unfold updateAll in IH. rewrite IH by done.
  unfold verifiedHashCached, updateVerifiedCacheStatus. cbn.
  by rewrite lookup_insert_ne.
Qed.

Lemma updateAll_marks (hashes : list N) (status : bool) (st : State) (h : N) :
  h ∈ hashes → verifiedHashCached (updateAll hashes status st) h = status.
Proof.
  revert st. induction hashes as [|x l IH]; intros st Hin.
  - by apply elem_of_nil in Hin.
  - destruct (decide (h ∈ l)) as [Hl|Hl].
    + cbn. by apply IH.
    + apply elem_of_cons in Hin as [->|Hin]; [|done].
      cbn. fold (updateAll l status (updateVerifiedCacheStatus x status st)).
      rewrite updateAll_other by done.
      unfold verifiedHashCached, updateVerifiedCacheStatus. cbn.
      by rewrite lookup_insert_eq.
Qed.

(** Whatever the verdict on the header, every hash of the batch ends up
    marked verified. *)
Lemma parseAndVerifyVM2_marks_all (st st' : State) (encodedVM : list byte)
    (vm : VM2) (valid : bool) (reason : string) (h : N) :
  parseAndVerifyVM2 keccak256 ecrecover st encodedVM = Ok (vm, valid, reason, st') →
  h ∈ bh_hashes (vm2_header vm) →
  verifiedHashCached st' h = true.
Proof.
  unfold parseAndVerifyVM2. intros H Hin.
  apply bind_Ok in H as (vm0 & _ & H).
  apply bind_Ok in H as ([valid0 reason0] & _ & H).
  injection H as <- _ _ <-. by apply updateAll_marks.
Qed.

(** The bytes that [parseVM2] hashes start at the offset at which
    [hashesLen] itself was read. *)
Lemma parseVM2_hashed_bytes (encodedVM : list byte) (vm : VM2) :
  parseVM2 keccak256 encodedVM = Ok vm →
  ∃ signersLen hashesLen body,
    toUint8 encodedVM 5 = Ok signersLen
    ∧ toUint8 encodedVM (6 + 66 * signersLen) = Ok hashesLen
    ∧ slice encodedVM (6 + 66 * signersLen) (hashesLen * 32) = Ok body
    ∧ hashesLen * 32 < 256
    ∧ bh_hash (vm2_header vm) = keccak256 (encodePacked32 (keccak256 body)).
Proof.
  unfold parseVM2. intros H.
  apply bind_Ok in H as (version & _ & H).
  apply bind_Ok in H as (i1 & Hi1 & H).
  apply bind_Ok in H as (_ & _ & H).
  apply bind_Ok in H as (guardianSetIndex & _ & H).
  apply bind_Ok in H as (i5 & Hi5 & H).
  apply bind_Ok in H as (signersLen & Hs & H).
  apply bind_Ok in H as (i6 & Hi6 & H).
  apply bind_Ok in H as (signatures & _ & H).
  apply bind_Ok in H as (sigBytes & Hsb & H).
  apply bind_Ok in H as (index & Hindex & H).
  apply bind_Ok in H as (hashesLen & Hh & H).
  apply bind_Ok in H as (bodyLen & Hbl & H).
  apply bind_Ok in H as (body & Hbody & H).
  apply bind_Ok in H as ([hashes index'] & _ & H).
  apply bind_Ok in H as (observationsLen & _ & H).
  apply bind_Ok in H as (observations & _ & H).
  injection H as <-.
  apply checked_add_Ok in Hi1, Hi5, Hi6, Hindex.
  apply checked_mul_Ok in Hsb as [-> _], Hbl as [-> Hlt].
  subst. cbn in *.
  exists signersLen, hashesLen, body. done.
Qed.

(** C1, at the failing input: [batch_buffer] is a batch with no
    signature for the unregistered guardian set 0. [parseAndVerifyVM2]
    rejects it with "invalid guardian set" and still marks its one hash
    verified, so that a later V3 verification of that hash succeeds. *)
Theorem parseAndVerifyVM2_caches_rejected_batch :
  ∃ vm st',
    parseAndVerifyVM2 keccak256 ecrecover empty_state batch_buffer
    = Ok (vm, false, "invalid guardian set"%string, st')
    ∧ bh_hashes (vm2_header vm) = [be_combine (bytes_of (1 :: repeat 170 31))]
    ∧ verifiedHashCached empty_state
        (be_combine (bytes_of (1 :: repeat 170 31))) = false
    ∧ verifiedHashCached st'
        (be_combine (bytes_of (1 :: repeat 170 31))) = true
    ∧ verifyVM3 st'
        {| vm3_version := 3; vm3_observation := emptyObservation;
           vm3_hash := be_combine (bytes_of (1 :: repeat 170 31)) |}
      = Ok (true, ""%string).
Proof.
  eexists _, _. split; [reflexivity|].
  repeat split; vm_compute; reflexivity.
Qed.

(** C2, at the failing input: in [batch_buffer] the byte [hashesLen = 1]
    sits at offset 6. The header hash is the double hash of the 32 bytes
    from offset 6, the [hashesLen] byte first, and not of the 32 bytes
    that follow that byte; the one hash of the batch is read from
    offset 6 as well. *)
Theorem parseVM2_hashes_length_byte :
  toUint8 batch_buffer 6 = Ok 1
  ∧ slice batch_buffer 6 32 = Ok (bytes_of (1 :: repeat 170 31))
  ∧ slice batch_buffer 7 32 = Ok (bytes_of (repeat 170 31 ++ [0]))
  ∧ bytes_of (1 :: repeat 170 31) ≠ bytes_of (repeat 170 31 ++ [0])
  ∧ ∃ vm,
      parseVM2 keccak256 batch_buffer = Ok vm
      ∧ bh_hash (vm2_header vm)
        = keccak256 (encodePacked32 (keccak256 (bytes_of (1 :: repeat 170 31))))
      ∧ bh_hashes (vm2_header vm) = [be_combine (bytes_of (1 :: repeat 170 31))].
Proof.
  split; [reflexivity|]. split; [reflexivity|]. split; [reflexivity|].
  split; [discriminate|].
  eexists. split; [reflexivity|]. split; reflexivity.
Qed.
End Properties.

(** ** Closed instances *)

(** C3 on sixty bytes that start with the version byte 3. *)
Lemma parseVM3_never_returns_witness :
  toUint8 v3_buffer 0 = Ok 3
  ∧ reverts (parseAndVerifyVAA sample_keccak256 sample_ecrecover empty_state v3_buffer).
Proof.
  split; [reflexivity|].
  apply (parseVM3_never_returns sample_keccak256 sample_ecrecover
           empty_state v3_buffer).
  reflexivity.
Defined.

(** C6 on a current guardian set of 256 keys and a header without
    signatures. *)
Lemma quorum_formula_witness :
  verifiedHashCached (guardian_state (repeat 1 256)) 1 = false
  ∧ 256 <= N.of_nat (length (keys (getGuardianSet (guardian_state (repeat 1 256)) 0)))
  ∧ verifyHeader sample_ecrecover (guardian_state (repeat 1 256)) (header_of 0 [] 1)
    = Err (Reverted "too many guardians").
Proof.
  split; [reflexivity|]. split; [apply N.leb_le; reflexivity|].
  apply (quorum_formula sample_ecrecover 256).
  - reflexivity.
  - reflexivity.
  - apply N.leb_le; reflexivity.
Defined.

(** C7 on a cached hash, with no signature and no guardian set. *)
Lemma verifyHeader_cache_bypass_witness :
  verifiedHashCached cached_state 42 = true
  ∧ verifyHeader sample_ecrecover cached_state (header_of 9 [] 42)
    = Ok (true, ""%string).
Proof.
  split; [reflexivity|].
  apply (proj1 (verifyHeader_cache_bypass sample_ecrecover cached_state
                  (header_of 9 [] 42))).
  reflexivity.
Defined.

(** C8 after a rotation: the old set 0 has expired and is rejected; the
    current set 1, whose expiration time 0 also lies in the past, gets to
    the quorum check. *)
Lemma verifyHeader_expiry_check_witness :
  verifyHeader sample_ecrecover rotated_state (header_of 0 [] 7)
  = Ok (false, "guardian set has expired"%string)
  ∧ 0 ≠ getCurrentGuardianSetIndex rotated_state
  ∧ expirationTime (getGuardianSet rotated_state 0) < block_timestamp rotated_state
  ∧ expirationTime (getGuardianSet rotated_state 1) < block_timestamp rotated_state
  ∧ verifyHeader sample_ecrecover rotated_state (header_of 1 [] 7)
    = Ok (false, "no quorum"%string).
Proof.
  pose proof (verifyHeader_expiry_check sample_ecrecover rotated_state
                (header_of 0 [] 7)) as (Honly & Hwhen & _).
  pose proof (verifyHeader_expiry_check sample_ecrecover rotated_state
                (header_of 1 [] 7)) as (_ & _ & Hpass).
  assert (H : verifyHeader sample_ecrecover rotated_state (header_of 0 [] 7)
              = Ok (false, "guardian set has expired"%string)).
  { apply Hwhen.
    - reflexivity.
    - vm_compute. discriminate.
    - vm_compute. discriminate.
    - reflexivity. }
  split; [exact H|].
  split; [exact (proj1 (Honly H))|].
  split; [exact (proj2 (Honly H))|].
  split; [reflexivity|].
  rewrite Hpass.
  - reflexivity.
  - reflexivity.
  - vm_compute. discriminate.
  - left. reflexivity.
Defined.

(** C4 as amended: a valid signature given twice aborts the walk; an
    unknown guardian set and a signature of the wrong signer come back
    as verdicts. *)
Lemma verifyHeader_failure_modes_witness :
  verifySignatures sample_ecrecover 1 [good_sig] one_guardian = Ok (true, ""%string)
  ∧ verifySignatures sample_ecrecover 1 ([good_sig] ++ [good_sig]) one_guardian
    = Err (Reverted "signature indices must be ascending")
  ∧ verifySignatures sample_ecrecover 1 ([good_sig] ++ [far_sig]) one_guardian
    = Err (Reverted "guardian index out of bounds")
  ∧ verifyHeader sample_ecrecover empty_state (header_of 0 [] 1)
    = Ok (false, "invalid guardian set"%string)
  ∧ verifyHeader sample_ecrecover (guardian_state [44]) (header_of 0 [] 1)
    = Ok (false, "no quorum"%string)
  ∧ verifySignatures sample_ecrecover 1 ([] ++ [bad_sig; bad_sig]) one_guardian
    = Ok (false, "VM signature invalid"%string).
Proof.
  pose proof (verifyHeader_failure_modes sample_ecrecover empty_state
                (header_of 0 [] 1))
    as (_ & _ & Hasc & Hfar & _ & Hzero & _ & _ & Hbad & _).
  pose proof (verifyHeader_failure_modes sample_ecrecover (guardian_state [44])
                (header_of 0 [] 1))
    as (_ & _ & _ & _ & _ & _ & _ & Hquorum & _ & _).
  split; [reflexivity|]. split.
  { apply Hasc.
    - reflexivity.
    - discriminate.
    - vm_compute. discriminate. }
  split.
  { apply Hfar.
    - reflexivity.
    - right. reflexivity.
    - vm_compute. discriminate. }
  split.
  { apply Hzero.
    - reflexivity.
    - reflexivity. }
  split.
  { apply (Hquorum 1).
    - reflexivity.
    - vm_compute. discriminate.
    - reflexivity.
    - reflexivity.
    - reflexivity. }
  apply (Hbad 1 [] bad_sig [bad_sig] one_guardian 44).
  - reflexivity.
  - left. reflexivity.
  - reflexivity.
  - vm_compute. discriminate.
Defined.

(** C9 as amended, on a valid signature given twice and on an invalid
    one given twice. *)
Lemma verifySignatures_order_enforced_witness :
  sig_guardianIndex good_sig <= sig_guardianIndex good_sig
  ∧ Forall (individually_valid sample_ecrecover 1 one_guardian) ([] ++ [good_sig])
  ∧ verifySignatures sample_ecrecover 1 ([] ++ [good_sig; good_sig]) one_guardian
    = Err (Reverted "signature indices must be ascending")
  ∧ verifySignatures sample_ecrecover 1 ([] ++ [bad_sig; bad_sig]) one_guardian
    = Ok (false, "VM signature invalid"%string).
Proof.
  assert (Hle : sig_guardianIndex good_sig <= sig_guardianIndex good_sig)
    by (vm_compute; discriminate).
  assert (Hall : Forall (individually_valid sample_ecrecover 1 one_guardian)
                   ([] ++ [good_sig])).
  { constructor; [reflexivity | constructor]. }
  pose proof (verifySignatures_order_enforced sample_ecrecover 1
                one_guardian [] good_sig good_sig [] Hle)
    as (_ & Hasc & _ & _ & Hbad & _).
  split; [exact Hle|]. split; [exact Hall|]. split; [exact (Hasc Hall)|].
  apply (Hbad [] bad_sig [bad_sig] 44).
  - reflexivity.
  - left. reflexivity.
  - reflexivity.
  - vm_compute. discriminate.
Defined.

(** C5 as amended: a V1 message whose hash is cached needs neither a
    guardian set nor a signer; the same message, accepted without a cache
    entry, is rejected under some other recovery. *)
Lemma parseAndVerifyVAA_twice_witness :
  parseVM sample_keccak256 v1_buffer = Ok v1_message
  ∧ verifiedHashCached v1_cached_state (vm_hash v1_message) = true
  ∧ parseAndVerifyVAA sample_keccak256 no_signer v1_cached_state v1_buffer
    = Ok (v1_observation, true, ""%string)
  ∧ verifiedHashCached (guardian_state [v1_signer]) (vm_hash v1_message) = false
  ∧ parseAndVerifyVAA sample_keccak256 sample_ecrecover
      (guardian_state [v1_signer]) v1_buffer
    = Ok (v1_observation, true, ""%string)
  ∧ ∃ recover,
      parseAndVerifyVAA sample_keccak256 recover (guardian_state [v1_signer])
        v1_buffer
      = Ok (v1_observation, false, "VM signature invalid"%string).
Proof.
  assert (Hp : parseVM sample_keccak256 v1_buffer = Ok v1_message)
    by (vm_compute; reflexivity).
  assert (Hc : verifiedHashCached v1_cached_state (vm_hash v1_message) = true)
    by (vm_compute; reflexivity).
  assert (Hn : verifiedHashCached (guardian_state [v1_signer])
                 (vm_hash v1_message) = false) by (vm_compute; reflexivity).
  assert (Hacc : parseAndVerifyVAA sample_keccak256 sample_ecrecover
                   (guardian_state [v1_signer]) v1_buffer
                 = Ok (v1_observation, true, ""%string))
    by (vm_compute; reflexivity).
  pose proof (parseAndVerifyVAA_twice sample_keccak256 sample_ecrecover
                v1_cached_state v1_buffer) as (_ & Hserved & _).
  pose proof (parseAndVerifyVAA_twice sample_keccak256 sample_ecrecover
                (guardian_state [v1_signer]) v1_buffer)
    as (_ & _ & _ & _ & Hagain).
  split; [exact Hp|]. split; [exact Hc|].
  split; [exact (Hserved v1_message no_signer Hp Hc)|].
  split; [exact Hn|]. split; [exact Hacc|].
  exact (Hagain v1_message v1_observation ""%string Hp Hn Hacc).
Defined.

(** C10 as amended, on the version byte 2. *)
Lemma parseAndVerifyVAA_unknown_version_witness :
  toUint8 (bytes_of [2]) 0 = Ok 2
  ∧ parseAndVerifyVAA sample_keccak256 sample_ecrecover empty_state (bytes_of [2])
    = Ok (emptyObservation, false, "Invalid version"%string).
Proof.
  split; [reflexivity|].
  apply (parseAndVerifyVAA_unknown_version sample_keccak256 sample_ecrecover
           empty_state (bytes_of [2]) 2).
  - reflexivity.
  - discriminate.
  - discriminate.
Defined.

(** C4 fails as stated: with quorum reached under the one-guardian set,
    a repeated guardian index and a guardian index outside the set both
    abort [verifyHeader]; no [(false, reason)] comes back. *)
Lemma verifyHeader_aborts_on_order_and_range :
  verifyHeader sample_ecrecover (guardian_state [44])
    (header_of 0 [good_sig; good_sig] 1)
  = Err (Reverted "signature indices must be ascending")
  ∧ verifyHeader sample_ecrecover (guardian_state [44]) (header_of 0 [far_sig] 1)
    = Err (Reverted "guardian index out of bounds").
Proof. split; vm_compute; reflexivity. Qed.

(** C5 fails as stated: [v1_buffer] verifies under its guardian set, the
    second call returns the same, and yet the hash is in no cache when the
    second call runs; with a recovery that names no signer the same call
    in the same state is rejected, so the verdict came from the
    signatures. *)
Lemma parseAndVerifyVAA_second_call_not_cached :
  parseVM sample_keccak256 v1_buffer = Ok v1_message
  ∧ twice (call_view (λ s, parseAndVerifyVAA sample_keccak256 sample_ecrecover
                             s v1_buffer)) (guardian_state [v1_signer])
    = Ok ((v1_observation, true, ""%string), (v1_observation, true, ""%string),
          guardian_state [v1_signer])
  ∧ verifiedHashCached (guardian_state [v1_signer]) (vm_hash v1_message) = false
  ∧ parseAndVerifyVAA sample_keccak256 no_signer (guardian_state [v1_signer]) v1_buffer
    = Ok (v1_observation, false, "VM signature invalid"%string).
Proof. repeat split; vm_compute; reflexivity. Qed.

(** C9 fails as stated: the guardian index 0 comes twice, and the walk
    ends on the invalid first signature before it looks at the order;
    likewise an out-of-range first index is reported before the
    descent behind it. *)
Lemma verifySignatures_reports_earlier_failure :
  verifySignatures sample_ecrecover 1 [bad_sig; bad_sig] one_guardian
  = Ok (false, "VM signature invalid"%string)
  ∧ verifySignatures sample_ecrecover 1 [far_sig; good_sig] one_guardian
    = Err (Reverted "guardian index out of bounds").
Proof. split; vm_compute; reflexivity. Qed.

(** C10 fails as stated: on the first bytes 5 and 9 [parseAndVerifyVAA]
    returns, and it returns the same reason, which names neither byte. *)
Lemma parseAndVerifyVAA_returns_invalid_version :
  parseAndVerifyVAA sample_keccak256 sample_ecrecover empty_state (bytes_of [5])
  = Ok (emptyObservation, false, "Invalid version"%string)
  ∧ parseAndVerifyVAA sample_keccak256 sample_ecrecover empty_state (bytes_of [9])
    = Ok (emptyObservation, false, "Invalid version"%string).
Proof. split; vm_compute; reflexivity. Qed.

(** * Further properties of the code *)

(** ** What the walk accepts *)

Section Acceptance.
Variable ecrecover : N → N → N → N → N.

Lemma verifySignatures_loop_accepts hash sigs gs i lastIndex r :
  verifySignatures_loop ecrecover hash sigs gs i lastIndex = Ok (true, r) ↔
  r = ""%string
  ∧ Forall (individually_valid ecrecover hash gs) sigs
  ∧ Sorted N.lt (sig_guardianIndex <$> sigs)
  ∧ (i = 0 ∨ HdRel N.lt lastIndex (sig_guardianIndex <$> sigs)).
Proof.
  revert i lastIndex. induction sigs as [|sig rest IH]; intros i lastIndex.
  - cbn. split.
    + intros [= <-]. repeat split; auto.
    + intros (-> & _). done.
  - rewrite verifySignatures_loop_cons, fmap_cons. split.
    + destruct ((i =? 0) || _) eqn:Ho; cbn [negb]; [|done].
      destruct (sig_guardianIndex sig <? _) eqn:Hb; cbn [negb]; [|done].
      destruct (keys gs !! _) as [key|] eqn:Hk; [|done].
      destruct (_ =? key) eqn:He; [|done].
      apply N.eqb_eq in He. subst key.
      intros (-> & Hall & Hs & Hhd)%IH.
      split; [done|]. split; [by constructor|]. split.
      * constructor; [done|]. destruct Hhd as [Hz|Hhd]; [lia | done].
      * apply orb_true_iff in Ho as [Hz%N.eqb_eq|Hlt%N.ltb_lt];
          [by left | right; by constructor].
    + intros (-> & Hall & Hs & Hhd).
      apply Forall_cons in Hall as [Hv Hall].
      apply Sorted_inv in Hs as [Hs Hhd'].
      unfold individually_valid in Hv.
      pose proof (lookup_lt_Some _ _ _ Hv) as Hlt.
      replace ((i =? 0) || (lastIndex <? sig_guardianIndex sig)) with true.
      2:{ symmetry. apply orb_true_iff. destruct Hhd as [->|Hhd]; [by left|].
          right. apply HdRel_inv in Hhd. by apply N.ltb_lt. }
      replace (sig_guardianIndex sig <? N.of_nat (length (keys gs))) with true
        by (symmetry; apply N.ltb_lt; lia).
      cbn [negb]. rewrite Hv, N.eqb_refl.
      apply IH. repeat split; auto.
Qed.

Lemma ascending_NoDup (l : list N) : Sorted N.lt l → NoDup l.
Proof.
  intros Hs. apply Sorted_StronglySorted in Hs; [|intros ???; apply N.lt_trans].
  induction Hs as [|x l _ IH Hall]; constructor; [|done].
  intros Hin. rewrite Forall_forall in Hall.
  apply Hall in Hin. lia.
Qed.

Lemma ascending_length (l : list N) (lo n : N) :
  Sorted N.lt l → Forall (λ x, lo <= x < n) l → N.of_nat (length l) <= n - lo.
Proof.
  intros Hs. apply Sorted_StronglySorted in Hs; [|intros ???; apply N.lt_trans].
  revert lo. induction Hs as [|x l _ IH Hall]; intros lo Hb; [cbn; lia|].
  apply Forall_cons in Hb as [Hx Hb].
  assert (Hl : N.of_nat (length l) <= n - (x + 1)).
  { apply IH. rewrite Forall_forall in *. intros y Hy.
    specialize (Hall y Hy). specialize (Hb y Hy). lia. }
  cbn [length]. lia.
Qed.

(** Valid signatures in ascending order come from as many guardians. *)
Lemma accepted_signatures_distinct hash sigs gs :
  Forall (individually_valid ecrecover hash gs) sigs →
  Sorted N.lt (sig_guardianIndex <$> sigs) →
  NoDup (sig_guardianIndex <$> sigs)
  ∧ Forall (λ i, i < N.of_nat (length (keys gs))) (sig_guardianIndex <$> sigs)
  ∧ (length sigs <= length (keys gs))%nat.
Proof.
  intros Hall Hs.
  assert (Hb : Forall (λ i, i < N.of_nat (length (keys gs)))
                 (sig_guardianIndex <$> sigs)).
  { apply Forall_fmap. eapply Forall_impl; [exact Hall|].
    intros sig Hv. cbn. apply lookup_lt_Some in Hv. lia. }
  split; [by apply ascending_NoDup|]. split; [done|].
  pose proof (ascending_length (sig_guardianIndex <$> sigs) 0
                (N.of_nat (length (keys gs))) Hs) as Hlen.
  rewrite length_fmap in Hlen.
  assert (N.of_nat (length sigs) <= N.of_nat (length (keys gs)) - 0); [|lia].
  apply Hlen. eapply Forall_impl; [exact Hb|]. cbn. lia.
Qed.
End Acceptance.

Section Verdicts.
Variable ecrecover : N → N → N → N → N.

(** What an accepted header that is not in the cache has gone through. *)
Lemma verifyHeader_accepted_inv (st : State) (vm : Header) (r : string) :
  let guardianSet := getGuardianSet st (hdr_guardianSetIndex vm) in
  verifiedHashCached st (hdr_hash vm) = false →
  verifyHeader ecrecover st vm = Ok (true, r) →
  r = ""%string
  ∧ keys guardianSet ≠ []
  ∧ N.of_nat (length (keys guardianSet)) < 256
  ∧ (hdr_guardianSetIndex vm = getCurrentGuardianSetIndex st
     ∨ block_timestamp st <= expirationTime guardianSet)
  ∧ N.of_nat (length (keys guardianSet)) * 2 / 3 + 1
    <= N.of_nat (length (hdr_signatures vm))
  ∧ Forall (individually_valid ecrecover (hdr_hash vm) guardianSet)
      (hdr_signatures vm)
  ∧ Sorted N.lt (sig_guardianIndex <$> hdr_signatures vm).
Proof.
  intros gs Hc. unfold verifyHeader. fold gs. rewrite Hc.
  destruct (N.of_nat (length (keys gs)) =? 0) eqn:E0; [done|].
  destruct (negb _ && _) eqn:Ee; [done|].
  rewrite quorum_eq.
  destruct (N.of_nat (length (keys gs)) <? 256) eqn:E256; [|done]. cbn.
  destruct (N.of_nat (length (hdr_signatures vm)) <? _) eqn:Eq; [done|].
  destruct (verifySignatures ecrecover (hdr_hash vm) (hdr_signatures vm) gs)
    as [[[] reason]|e] eqn:Ew; cbn; [|done..].
  intros [= <-].
  apply verifySignatures_loop_accepts in Ew as (_ & Hall & Hs & _).
  apply N.eqb_neq in E0. apply N.ltb_lt in E256. apply N.ltb_ge in Eq.
  split; [done|]. split; [by destruct (keys gs)|]. split; [done|].
  split; [|done].
  apply andb_false_iff in Ee as [Ee|Ee].
  - left. by apply negb_false_iff, N.eqb_eq in Ee.
  - right. by apply N.ltb_ge.
Qed.

(** X1: for fewer than 256 guardians the quorum is the least number of
    signatures that is more than two thirds of the guardian set, and a
    non-empty set can reach it; from 256 guardians on [quorum] aborts
    with "too many guardians" and with nothing else. *)
Theorem quorum_two_thirds (n : N) :
  match quorum n with
  | Ok q => n < 256 ∧ 2 * n < 3 * q ∧ 3 * q <= 2 * n + 3 ∧ (n ≠ 0 → q <= n)
  | Err e => 256 <= n ∧ e = Reverted "too many guardians"
  end.
Proof.
  rewrite quorum_eq. destruct (n <? 256) eqn:E.
  - apply N.ltb_lt in E.
    pose proof (N.Div0.div_mod (n * 2) 3) as Hd.
    pose proof (N.mod_upper_bound (n * 2) 3 ltac:(lia)) as Hm.
    set (d := n * 2 / 3) in *. set (m := (n * 2) mod 3) in *. clearbody d m.
    repeat split; lia.
  - apply N.ltb_ge in E. done.
Qed.

(** X2: the signature walk accepts a list exactly when every signature
    recovers to the guardian key stored at its index and the guardian
    indices are strictly ascending; the reason is then empty. *)
Theorem verifySignatures_accepts_iff (hash : N) (sigs : list Signature)
    (gs : GuardianSet) (r : string) :
  verifySignatures ecrecover hash sigs gs = Ok (true, r) ↔
  r = ""%string
  ∧ Forall (individually_valid ecrecover hash gs) sigs
  ∧ Sorted N.lt (sig_guardianIndex <$> sigs).
Proof.
  unfold verifySignatures. rewrite verifySignatures_loop_accepts.
  split; [intros (? & ? & ? & _); done | intros (? & ? & ?)].
  repeat split; auto.
Qed.

(** X3: the signatures of an accepted list come from distinct guardians
    of the set: no guardian index occurs twice, every index is below the
    number of keys, and there are no more signatures than keys. *)
Theorem verifySignatures_distinct_guardians (hash : N) (sigs : list Signature)
    (gs : GuardianSet) (r : string) :
  verifySignatures ecrecover hash sigs gs = Ok (true, r) →
  NoDup (sig_guardianIndex <$> sigs)
  ∧ Forall (λ i, i < N.of_nat (length (keys gs))) (sig_guardianIndex <$> sigs)
  ∧ (length sigs <= length (keys gs))%nat.
Proof.
  unfold verifySignatures. intros (_ & Hall & Hs & _)%verifySignatures_loop_accepts.
  by apply (accepted_signatures_distinct ecrecover hash).
Qed.

(** X4: a header whose hash is not in the cache is accepted exactly when
    its guardian set has between 1 and 255 keys, is the current set or has
    not expired, the signatures number at least [keys * 2 / 3 + 1], each
    of them recovers to the key at its guardian index, and the guardian
    indices are strictly ascending. *)
Theorem verifyHeader_accepts_iff (st : State) (vm : Header) (r : string) :
  let guardianSet := getGuardianSet st (hdr_guardianSetIndex vm) in
  verifiedHashCached st (hdr_hash vm) = false →
  verifyHeader ecrecover st vm = Ok (true, r) ↔
  r = ""%string
  ∧ keys guardianSet ≠ []
  ∧ N.of_nat (length (keys guardianSet)) < 256
  ∧ (hdr_guardianSetIndex vm = getCurrentGuardianSetIndex st
     ∨ block_timestamp st <= expirationTime guardianSet)
  ∧ N.of_nat (length (keys guardianSet)) * 2 / 3 + 1
    <= N.of_nat (length (hdr_signatures vm))
  ∧ Forall (individually_valid ecrecover (hdr_hash vm) guardianSet)
      (hdr_signatures vm)
  ∧ Sorted N.lt (sig_guardianIndex <$> hdr_signatures vm).
Proof.
  intros gs Hc. split; [by apply verifyHeader_accepted_inv|].
  intros (-> & Hk & H256 & Hexp & Hq & Hall & Hs).
  rewrite (verifyHeader_reaches_walk ecrecover st vm
             (N.of_nat (length (keys gs)) * 2 / 3 + 1)); try done.
  - fold gs.
    assert (Hw : verifySignatures ecrecover (hdr_hash vm) (hdr_signatures vm) gs
                 = Ok (true, ""%string)).
    { apply verifySignatures_loop_accepts. repeat split; auto. }
    by rewrite Hw.
  - fold gs. apply andb_false_iff. destruct Hexp as [He|He].
    + left. by apply negb_false_iff, N.eqb_eq.
    + right. by apply N.ltb_ge.
  - fold gs. rewrite quorum_eq.
    by replace (N.of_nat (length (keys gs)) <? 256) with true
      by (symmetry; by apply N.ltb_lt).
Qed.

(** X5: an accepted header whose hash is not in the cache carries valid
    signatures of more than two thirds of its guardian set, each from
    another guardian. *)
Theorem verifyHeader_supermajority (st : State) (vm : Header) (r : string) :
  let guardianSet := getGuardianSet st (hdr_guardianSetIndex vm) in
  verifiedHashCached st (hdr_hash vm) = false →
  verifyHeader ecrecover st vm = Ok (true, r) →
  (2 * length (keys guardianSet) < 3 * length (hdr_signatures vm))%nat
  ∧ (length (hdr_signatures vm) <= length (keys guardianSet))%nat
  ∧ NoDup (sig_guardianIndex <$> hdr_signatures vm)
  ∧ Forall (individually_valid ecrecover (hdr_hash vm) guardianSet)
      (hdr_signatures vm).
Proof.
  intros gs Hc Hacc.
  destruct (verifyHeader_accepted_inv st vm r Hc Hacc)
    as (_ & _ & H256 & _ & Hq & Hall & Hs).
  fold gs in H256, Hq, Hall.
  destruct (accepted_signatures_distinct ecrecover _ _ _ Hall Hs) as (Hnd & _ & Hle).
  pose proof (N.Div0.div_mod (N.of_nat (length (keys gs)) * 2) 3) as Hd.
  pose proof (N.mod_upper_bound (N.of_nat (length (keys gs)) * 2) 3 ltac:(lia)) as Hm.
  split; [|done].
  set (d := N.of_nat (length (keys gs)) * 2 / 3) in *.
  set (m := (N.of_nat (length (keys gs)) * 2) mod 3) in *. clearbody d m. lia.
Qed.

(** X6: for a guardian-set index that was never registered, a header
    whose hash is not in the cache is answered "invalid guardian set",
    whatever its signatures, the empty list included. *)
Theorem verifyHeader_unknown_guardian_set (st : State) (vm : Header) :
  guardianSets st !! hdr_guardianSetIndex vm = None →
  verifiedHashCached st (hdr_hash vm) = false →
  verifyHeader ecrecover st vm = Ok (false, "invalid guardian set"%string).
Proof.
  intros Hnone Hc. unfold verifyHeader, getGuardianSet.
  by rewrite Hc, Hnone.
Qed.
End Verdicts.

(** ** The cache under batches and wipes *)

Lemma updateAll_frame (hashes : list N) (status : bool) (st : State) :
  guardianSets (updateAll hashes status st) = guardianSets st
  ∧ guardianSetIndex (updateAll hashes status st) = guardianSetIndex st
  ∧ block_timestamp (updateAll hashes status st) = block_timestamp st.
Proof.
  revert st. induction hashes as [|x l IH]; intros st; [done|].
  cbn. fold (updateAll l status (updateVerifiedCacheStatus x status st)).
  by destruct (IH (updateVerifiedCacheStatus x status st)) as (-> & -> & ->).
Qed.

Lemma updateAll_cached (hashes : list N) (status : bool) (st : State) (h : N) :
  verifiedHashCached (updateAll hashes status st) h
  = if decide (h ∈ hashes) then status else verifiedHashCached st h.
Proof.
  destruct (decide (h ∈ hashes)); [by apply updateAll_marks | by apply updateAll_other].
Qed.

Section Batches.
Variable keccak256 : list byte → N.
Variable ecrecover : N → N → N → N → N.

(** X7: [wipeBatchCache] unmarks every hash of the header and nothing
    else: a hash outside the header keeps its cache status, and the
    guardian sets, the current index and the clock stay as they were. *)
Theorem wipeBatchCache_effect (header : BatchHeader) (st : State) :
  (∀ h, verifiedHashCached (wipeBatchCache header st) h
        = if decide (h ∈ bh_hashes header) then false
          else verifiedHashCached st h)
  ∧ (∀ index, getGuardianSet (wipeBatchCache header st) index
              = getGuardianSet st index)
  ∧ getCurrentGuardianSetIndex (wipeBatchCache header st)
    = getCurrentGuardianSetIndex st
  ∧ block_timestamp (wipeBatchCache header st) = block_timestamp st.
Proof.
  unfold wipeBatchCache, getGuardianSet, getCurrentGuardianSetIndex.
  destruct (updateAll_frame (bh_hashes header) false st) as (-> & -> & ->).
  split; [|done]. intros h. apply updateAll_cached.
Qed.

(** X8: the verdict of [parseAndVerifyVM2] is the verdict on the batch
    header in the state before the call, taken before any cache write;
    the call touches no guardian set, not the current index, not the
    clock, and no cache entry outside the hash list of the batch. *)
Theorem parseAndVerifyVM2_frame (st st' : State) (encodedVM : list byte)
    (vm : VM2) (valid : bool) (reason : string) :
  parseAndVerifyVM2 keccak256 ecrecover st encodedVM = Ok (vm, valid, reason, st') →
  parseVM2 keccak256 encodedVM = Ok vm
  ∧ verifyBatchHeader ecrecover st (vm2_header vm) = Ok (valid, reason)
  ∧ (∀ index, getGuardianSet st' index = getGuardianSet st index)
  ∧ getCurrentGuardianSetIndex st' = getCurrentGuardianSetIndex st
  ∧ block_timestamp st' = block_timestamp st
  ∧ (∀ h, h ∉ bh_hashes (vm2_header vm) →
          verifiedHashCached st' h = verifiedHashCached st h).
Proof.
  unfold parseAndVerifyVM2. intros H.
  apply bind_Ok in H as (vm0 & Hp & H).
  apply bind_Ok in H as ([valid0 reason0] & Hv & H).
  injection H as <- <- <- <-.
  unfold getGuardianSet, getCurrentGuardianSetIndex.
  destruct (updateAll_frame (bh_hashes (vm2_header vm0)) true st) as (-> & -> & ->).
  repeat split; try done.
  intros h Hh. by apply updateAll_other.
Qed.

(** X9: once [parseAndVerifyVM2] has returned, [verifyVM3] accepts every
    V3 message whose hash is in the hash list of the batch; after
    [wipeBatchCache] on the header of the batch it answers "Could not
    find hash in cache" for each of them, and the cache status of every
    other hash is the one from before the batch. *)
Theorem batch_then_wipe (st st' : State) (encodedVM : list byte)
    (vm : VM2) (valid : bool) (reason : string) :
  parseAndVerifyVM2 keccak256 ecrecover st encodedVM = Ok (vm, valid, reason, st') →
  (∀ v3, vm3_hash v3 ∈ bh_hashes (vm2_header vm) →
         verifyVM3 st' v3 = Ok (true, ""%string)
         ∧ verifyVM3 (wipeBatchCache (vm2_header vm) st') v3
           = Ok (false, "Could not find hash in cache"%string))
  ∧ (∀ h, h ∉ bh_hashes (vm2_header vm) →
          verifiedHashCached (wipeBatchCache (vm2_header vm) st') h
          = verifiedHashCached st h).
Proof.
  unfold parseAndVerifyVM2. intros H.
  apply bind_Ok in H as (vm0 & Hp & H).
  apply bind_Ok in H as ([valid0 reason0] & Hv & H).
  injection H as <- <- <- <-.
  split.
  - intros v3 Hin. unfold verifyVM3, wipeBatchCache.
    rewrite !updateAll_cached.
    destruct (decide (vm3_hash v3 ∈ bh_hashes (vm2_header vm0))); done.
  - intros h Hh. unfold wipeBatchCache. rewrite !updateAll_cached.
    destruct (decide (h ∈ bh_hashes (vm2_header vm0))); done.
Qed.
End Batches.

(** ** Reading the buffer *)

Lemma bind_Ok_l {A B : Type} (a : A) (f : A → result B) : Ok a ≫= f = f a.
Proof. reflexivity. Qed.

Lemma slice_eq (b : list byte) (start len : N) :
  start + len <= blength b →
  slice b start len = Ok (take (N.to_nat len) (drop (N.to_nat start) b)).
Proof.
  intros H. unfold slice.
  by replace (start + len <=? blength b) with true by (symmetry; by apply N.leb_le).
Qed.

Lemma toUint_eq (width : N) (b : list byte) (start : N) :
  start + width <= blength b →
  toUint width b start
  = Ok (be_combine (take (N.to_nat width) (drop (N.to_nat start) b))).
Proof. intros H. unfold toUint. by rewrite slice_eq. Qed.

Lemma toUint_Ok_inv (width : N) (b : list byte) (start x : N) :
  toUint width b start = Ok x →
  start + width <= blength b
  ∧ x = be_combine (take (N.to_nat width) (drop (N.to_nat start) b)).
Proof.
  unfold toUint. intros H. apply bind_Ok in H as (bs & Hs & [= <-]).
  apply slice_Ok in Hs as [? ->]. done.
Qed.

Lemma checked_add_eq (w a b : N) : a + b < 2 ^ w → checked_add w a b = Ok (a + b).
Proof.
  intros H. unfold checked_add.
  by replace (a + b <? 2 ^ w) with true by (symmetry; by apply N.ltb_lt).
Qed.

Lemma checked_sub_eq (a b : N) : b <= a → checked_sub a b = Ok (a - b).
Proof.
  intros H. unfold checked_sub.
  by replace (b <=? a) with true by (symmetry; by apply N.leb_le).
Qed.

Lemma checked_mul_eq (w a b : N) : a * b < 2 ^ w → checked_mul w a b = Ok (a * b).
Proof.
  intros H. unfold checked_mul.
  by replace (a * b <? 2 ^ w) with true by (symmetry; by apply N.ltb_lt).
Qed.

Lemma be_combine_snoc (bs : list byte) (b : byte) :
  be_combine (bs ++ [b]) = be_combine bs * 256 + Byte.to_N b.
Proof. unfold be_combine. by rewrite fold_left_app. Qed.

Lemma be_combine_bound (bs : list byte) :
  be_combine bs < 256 ^ N.of_nat (length bs).
Proof.
  induction bs as [|b bs IH] using rev_ind; [done|].
  rewrite be_combine_snoc, length_app. cbn [length].
  replace (N.of_nat (length bs + 1)) with (N.succ (N.of_nat (length bs))) by lia.
  rewrite N.pow_succ_r'.
  pose proof (Byte.to_N_bounded b). lia.
Qed.

Lemma toUint_bound (width : N) (b : list byte) (start x : N) :
  toUint width b start = Ok x → x < 256 ^ width.
Proof.
  intros (Hlen & ->)%toUint_Ok_inv.
  pose proof (be_combine_bound (take (N.to_nat width) (drop (N.to_nat start) b))) as H.
  rewrite length_take, length_drop in H.
  unfold blength in Hlen.
  replace (N.of_nat (N.to_nat width `min` (length b - N.to_nat start))) with width in H
    by lia.
  done.
Qed.

Lemma drop_N_add (b : list byte) (start k : N) :
  drop (N.to_nat (start + k)) b = drop (N.to_nat k) (drop (N.to_nat start) b).
Proof. rewrite drop_drop. f_equal. lia. Qed.

Ltac invert_reads :=
  unfold toUint8, toUint16, toUint32, toUint64, toBytes32 in *;
  repeat match goal with
  | H : toUint _ _ _ = Ok _ |- _ => apply toUint_Ok_inv in H as [? ?]
  end.

(** A parsed observation, read off the bytes from [start]. *)
Lemma parseObservation_Ok_inv (start len : N) (enc : list byte) (o : Observation) :
  parseObservation start len enc = Ok o →
  51 <= len ∧ start + len <= blength enc
  ∧ o = {| obs_timestamp := be_combine (take 4 (drop (N.to_nat start) enc));
           obs_nonce := be_combine (take 4 (drop 4 (drop (N.to_nat start) enc)));
           obs_emitterChainId :=
             be_combine (take 2 (drop 8 (drop (N.to_nat start) enc)));
           obs_emitterAddress :=
             be_combine (take 32 (drop 10 (drop (N.to_nat start) enc)));
           obs_sequence :=
             be_combine (take 8 (drop 42 (drop (N.to_nat start) enc)));
           obs_consistencyLevel :=
             be_combine (take 1 (drop 50 (drop (N.to_nat start) enc)));
           obs_payload :=
             take (N.to_nat (len - 51)) (drop 51 (drop (N.to_nat start) enc)) |}.
Proof.
  unfold parseObservation. intros H.
  repeat (apply bind_Ok in H as (? & ? & H)).
  injection H as <-.
  invert_steps. subst. invert_reads. subst.
  split; [lia|]. split; [lia|].
  replace (start + 4 + 4 + 2 + 32 + 8 + 1 - start) with 51 by lia.
  replace (start + 4 + 4) with (start + 8) by lia.
  replace (start + 8 + 2) with (start + 10) by lia.
  replace (start + 10 + 32) with (start + 42) by lia.
  replace (start + 42 + 8) with (start + 50) by lia.
  replace (start + 50 + 1) with (start + 51) by lia.
  by rewrite !drop_N_add.
Qed.

(** X10: an observation parses only if [51 <= len] and the [len] bytes
    from [start] lie inside the buffer, and it is then the big-endian
    reading of those bytes: timestamp (4 bytes), nonce (4), emitter chain
    (2), emitter address (32), sequence (8), consistency level (1), and
    the remaining [len - 51] bytes as payload. *)
Theorem parseObservation_decodes (start len : N) (enc : list byte) (o : Observation) :
  parseObservation start len enc = Ok o →
  let body := drop (N.to_nat start) enc in
  51 <= len ∧ start + len <= blength enc
  ∧ o = {| obs_timestamp := be_combine (take 4 body);
           obs_nonce := be_combine (take 4 (drop 4 body));
           obs_emitterChainId := be_combine (take 2 (drop 8 body));
           obs_emitterAddress := be_combine (take 32 (drop 10 body));
           obs_sequence := be_combine (take 8 (drop 42 body));
           obs_consistencyLevel := be_combine (take 1 (drop 50 body));
           obs_payload := take (N.to_nat (len - 51)) (drop 51 body) |}.
Proof. intros H. by apply parseObservation_Ok_inv. Qed.

Lemma require_true (c : bool) (reason : string) :
  c = true → require c reason = Ok tt.
Proof. by intros ->. Qed.

Lemma require_false (c : bool) (reason : string) :
  c = false → require c reason = Err (Reverted reason).
Proof. by intros ->. Qed.

Lemma checked_add_Ok_bound (w a b c : N) : checked_add w a b = Ok c → c < 2 ^ w.
Proof.
  unfold checked_add. destruct (a + b <? 2 ^ w) eqn:E; [|discriminate].
  apply N.ltb_lt in E. by intros [= <-].
Qed.

Ltac run_reads :=
  unfold toUint8, toUint16, toUint32, toUint64, toBytes32;
  repeat first
    [ rewrite bind_Ok_l
    | rewrite toUint_eq by lia
    | rewrite slice_eq by lia
    | rewrite checked_add_eq by lia
    | rewrite checked_sub_eq by lia
    | rewrite require_true by (apply N.leb_le; lia) ].

(** The converse: where the bytes are there, the observation is read. *)
Lemma parseObservation_eq (start len : N) (enc : list byte) :
  start + 51 < 2 ^ 256 → 51 <= len → start + len <= blength enc →
  parseObservation start len enc
  = Ok {| obs_timestamp := be_combine (take 4 (drop (N.to_nat start) enc));
          obs_nonce := be_combine (take 4 (drop 4 (drop (N.to_nat start) enc)));
          obs_emitterChainId :=
            be_combine (take 2 (drop 8 (drop (N.to_nat start) enc)));
          obs_emitterAddress :=
            be_combine (take 32 (drop 10 (drop (N.to_nat start) enc)));
          obs_sequence :=
            be_combine (take 8 (drop 42 (drop (N.to_nat start) enc)));
          obs_consistencyLevel :=
            be_combine (take 1 (drop 50 (drop (N.to_nat start) enc)));
          obs_payload :=
            take (N.to_nat (len - 51)) (drop 51 (drop (N.to_nat start) enc)) |}.
Proof.
  intros Hsize Hlen Hin. unfold parseObservation. run_reads.
  replace (start + 4 + 4 + 2 + 32 + 8 + 1 - start) with 51 by lia.
  replace (start + 4 + 4) with (start + 8) by lia.
  replace (start + 8 + 2) with (start + 10) by lia.
  replace (start + 10 + 32) with (start + 42) by lia.
  replace (start + 42 + 8) with (start + 50) by lia.
  replace (start + 50 + 1) with (start + 51) by lia.
  by rewrite !drop_N_add.
Qed.

(** X11: on a buffer of fewer than 2^256 bytes [parseObservation]
    returns exactly when [len] covers the 51 fixed bytes and the [len]
    bytes from [start] lie inside the buffer. *)
Theorem parseObservation_succeeds_iff (start len : N) (enc : list byte) :
  blength enc < 2 ^ 256 →
  (∃ o, parseObservation start len enc = Ok o)
  ↔ 51 <= len ∧ start + len <= blength enc.
Proof.
  intros Hsize. split.
  - intros [o Ho]. by destruct (parseObservation_Ok_inv _ _ _ _ Ho) as (? & ? & _).
  - intros [Hlen Hin]. unfold parseObservation. run_reads. by eexists.
Qed.

(** X12: the fields of a parsed observation fit their Solidity types, and
    the payload has [len - 51] bytes. *)
Theorem parseObservation_fields_in_range (start len : N) (enc : list byte)
    (o : Observation) :
  parseObservation start len enc = Ok o →
  obs_timestamp o < 2 ^ 32 ∧ obs_nonce o < 2 ^ 32
  ∧ obs_emitterChainId o < 2 ^ 16 ∧ obs_emitterAddress o < 2 ^ 256
  ∧ obs_sequence o < 2 ^ 64 ∧ obs_consistencyLevel o < 2 ^ 8
  ∧ blength (obs_payload o) = len - 51.
Proof.
  intros Ho.
  destruct (parseObservation_Ok_inv _ _ _ _ Ho) as (Hlen & Hin & _).
  unfold parseObservation in Ho.
  repeat (apply bind_Ok in Ho as (? & ? & Ho)).
  injection Ho as <-. cbn.
  repeat match goal with
  | H : toUint32 _ _ = Ok _ |- _ => apply toUint_bound in H
  | H : toUint16 _ _ = Ok _ |- _ => apply toUint_bound in H
  | H : toUint64 _ _ = Ok _ |- _ => apply toUint_bound in H
  | H : toUint8 _ _ = Ok _ |- _ => apply toUint_bound in H
  | H : toBytes32 _ _ = Ok _ |- _ => apply toUint_bound in H
  end.
  invert_steps. subst.
  repeat split; try done.
  unfold blength in *. rewrite length_take, length_drop. lia.
Qed.

(** X13: when the 51 fixed bytes are in the buffer but [len] is below 51,
    [parseObservation] aborts with "Insufficient observation length". *)
Theorem parseObservation_short_length (start len : N) (enc : list byte) :
  blength enc < 2 ^ 256 →
  start + 51 <= blength enc →
  len < 51 →
  parseObservation start len enc
  = Err (Reverted "Insufficient observation length").
Proof.
  intros Hsize Hin Hlen. unfold parseObservation. run_reads.
  rewrite require_false; [done|]. apply N.leb_gt. lia.
Qed.

(** ** Signatures and messages on the wire *)

(** The signature records lie 66 bytes apart from [start] on. *)
Lemma parseSignatures_loop_Ok_inv (n : nat) (start : N) (data : list byte)
    (sigs : list Signature) :
  parseSignatures_loop n start data = Ok sigs →
  length sigs = n
  ∧ ∀ (i : nat) (sig : Signature), sigs !! i = Some sig →
      start + 66 * N.of_nat i + 66 <= blength data
      ∧ toUint8 data (start + 66 * N.of_nat i) = Ok (sig_guardianIndex sig)
      ∧ toBytes32 data (start + 66 * N.of_nat i + 1) = Ok (sig_r sig)
      ∧ toBytes32 data (start + 66 * N.of_nat i + 33) = Ok (sig_s sig)
      ∧ toUint8 data (start + 66 * N.of_nat i + 65) = Ok (sig_v sig - 27)
      ∧ 27 <= sig_v sig < 256
      ∧ sig_guardianIndex sig < 256.
Proof.
  revert start sigs. induction n as [|n IH]; intros start sigs H.
  - injection H as <-. split; [done|]. intros i sig Hi. by destruct i.
  - cbn [parseSignatures_loop] in H.
    apply bind_Ok in H as (guardianIndex & Hg & H).
    apply bind_Ok in H as (i1 & Hi1 & H).
    apply bind_Ok in H as (r & Hr & H).
    apply bind_Ok in H as (i33 & Hi33 & H).
    apply bind_Ok in H as (s & Hs & H).
    apply bind_Ok in H as (i65 & Hi65 & H).
    apply bind_Ok in H as (v0 & Hv0 & H).
    apply bind_Ok in H as (v & Hv & H).
    apply bind_Ok in H as (i66 & Hi66 & H).
    apply bind_Ok in H as (rest & Hrest & H).
    injection H as <-.
    pose proof (checked_add_Ok_bound _ _ _ _ Hv) as Hvb.
    apply checked_add_Ok in Hi1, Hi33, Hi65, Hi66, Hv. subst.
    apply IH in Hrest as [Hlen Hrest].
    split; [by cbn; rewrite Hlen|].
    intros [|i] sig Hi.
    + injection Hi as <-. cbn.
      replace (start + 66 * N.of_nat 0) with start by lia.
      replace (start + 1 + 32) with (start + 33) in * by lia.
      replace (start + 33 + 32) with (start + 65) in * by lia.
      replace (v0 + 27 - 27) with v0 by lia.
      pose proof (toUint_bound _ _ _ _ Hg) as Hgb.
      pose proof (toUint_Ok_inv _ _ _ _ Hv0) as [Hin _].
      repeat split; try done; try lia.
    + cbn in Hi. specialize (Hrest i sig Hi).
      replace (start + 66 * N.of_nat (S i))
        with (start + 1 + 32 + 32 + 1 + 66 * N.of_nat i) by lia.
      done.
Qed.

Section Wire.
Variable keccak256 : list byte → N.
Variable ecrecover : N → N → N → N → N.

(** X14: [parseSignatures] returns [signersLen] records; record [i] is
    read from the 66 bytes at [start + 66 * i], guardian index first, then
    [r], [s] and the recovery byte, to which 27 is added in [uint8]: the
    parsed [v] lies between 27 and 255 (a recovery byte above 228 makes
    the parser abort). *)
Theorem parseSignatures_layout (start signersLen : N) (data : list byte)
    (sigs : list Signature) :
  parseSignatures start signersLen data = Ok sigs →
  N.of_nat (length sigs) = signersLen
  ∧ ∀ (i : nat) (sig : Signature), sigs !! i = Some sig →
      start + 66 * N.of_nat i + 66 <= blength data
      ∧ toUint8 data (start + 66 * N.of_nat i) = Ok (sig_guardianIndex sig)
      ∧ toBytes32 data (start + 66 * N.of_nat i + 1) = Ok (sig_r sig)
      ∧ toBytes32 data (start + 66 * N.of_nat i + 33) = Ok (sig_s sig)
      ∧ toUint8 data (start + 66 * N.of_nat i + 65) = Ok (sig_v sig - 27)
      ∧ 27 <= sig_v sig < 256
      ∧ sig_guardianIndex sig < 256.
Proof.
  unfold parseSignatures. intros [Hlen H]%parseSignatures_loop_Ok_inv.
  split; [lia | done].
Qed.

(** A parsed V1 message, read off the buffer. *)
Lemma parseVM_Ok_inv (encodedVM : list byte) (vm : VM) :
  parseVM keccak256 encodedVM = Ok vm →
  vm_version vm = 1
  ∧ toUint32 encodedVM 1 = Ok (vm_guardianSetIndex vm)
  ∧ toUint8 encodedVM 5 = Ok (N.of_nat (length (vm_signatures vm)))
  ∧ parseSignatures 6 (N.of_nat (length (vm_signatures vm))) encodedVM
    = Ok (vm_signatures vm)
  ∧ vm_hash vm
    = keccak256 (encodePacked32 (keccak256
        (drop (N.to_nat (6 + 66 * N.of_nat (length (vm_signatures vm))))
              encodedVM)))
  ∧ parseObservation (6 + 66 * N.of_nat (length (vm_signatures vm)))
      (blength encodedVM - (6 + 66 * N.of_nat (length (vm_signatures vm))))
      encodedVM
    = Ok (observation_of_VM vm).
Proof.
  unfold parseVM. intros H.
  apply bind_Ok in H as (version & Hver & H).
  apply bind_Ok in H as (i1 & Hi1 & H).
  apply bind_Ok in H as (u & Hreq & H).
  apply bind_Ok in H as (guardianSetIndex & Hgsi & H).
  apply bind_Ok in H as (i5 & Hi5 & H).
  apply bind_Ok in H as (signersLen & Hn & H).
  apply bind_Ok in H as (i6 & Hi6 & H).
  apply bind_Ok in H as (signatures & Hsigs & H).
  apply bind_Ok in H as (sigBytes & Hsb & H).
  apply bind_Ok in H as (index & Hindex & H).
  apply bind_Ok in H as (bodyLen & Hbl & H).
  apply bind_Ok in H as (body & Hbody & H).
  apply bind_Ok in H as (obsLen & Hol & H).
  apply bind_Ok in H as (observation & Hobs & H).
  injection H as <-. cbn.
  apply checked_add_Ok in Hi1, Hi5, Hi6, Hindex.
  apply checked_mul_Ok in Hsb as [-> _].
  apply checked_sub_Ok in Hbl as [-> Hle], Hol as [-> _].
  apply require_Ok, N.eqb_eq in Hreq.
  apply slice_Ok in Hbody as [_ ->].
  subst. cbn in *.
  assert (Hlen : N.of_nat (length signatures) = signersLen).
  { unfold parseSignatures in Hsigs.
    apply parseSignatures_loop_Ok_inv in Hsigs as [-> _]. lia. }
  rewrite Hlen.
  repeat split; try done.
  - rewrite take_ge; [done|]. rewrite length_drop. unfold blength. lia.
  - by destruct observation.
Qed.

(** X15: a buffer that [parseVM] accepts starts with the version byte 1,
    the guardian-set index (4 bytes) and the number of signatures
    (1 byte); the signature records follow from offset 6, and what is left
    from offset [6 + 66 * signatures] to the end is the body, of at least
    51 bytes. The observation is parsed from the body, its payload is the
    body without the 51 fixed bytes, and the hash is the double hash of
    the body. *)
Theorem parseVM_layout (encodedVM : list byte) (vm : VM) :
  parseVM keccak256 encodedVM = Ok vm →
  let body := drop (N.to_nat (6 + 66 * N.of_nat (length (vm_signatures vm))))
                   encodedVM in
  vm_version vm = 1
  ∧ toUint8 encodedVM 0 = Ok 1
  ∧ toUint32 encodedVM 1 = Ok (vm_guardianSetIndex vm)
  ∧ toUint8 encodedVM 5 = Ok (N.of_nat (length (vm_signatures vm)))
  ∧ parseSignatures 6 (N.of_nat (length (vm_signatures vm))) encodedVM
    = Ok (vm_signatures vm)
  ∧ 51 <= blength body
  ∧ vm_hash vm = keccak256 (encodePacked32 (keccak256 body))
  ∧ parseObservation 0 (blength body) body = Ok (observation_of_VM vm)
  ∧ vm_payload vm = drop 51 body.
Proof.
  intros Hvm body.
  pose proof (parseVM_version keccak256 _ _ Hvm) as Hv0.
  destruct (parseVM_Ok_inv _ _ Hvm) as (Hver & Hgsi & Hn & Hsigs & Hhash & Hobs).
  fold body in Hhash.
  destruct (parseObservation_Ok_inv _ _ _ _ Hobs) as (Hlen & Hin & Ho).
  fold body in Ho.
  assert (Hbl : blength body
                = blength encodedVM
                  - (6 + 66 * N.of_nat (length (vm_signatures vm)))).
  { unfold body, blength. rewrite length_drop. lia. }
  repeat split; try done.
  - lia.
  - rewrite (parseObservation_eq 0 (blength body) body); [|done|lia|lia].
    rewrite Ho, Hbl. done.
  - rewrite <- Hbl in Ho.
    assert (Hp : vm_payload vm = obs_payload (observation_of_VM vm)) by done.
    rewrite Hp, Ho. cbn.
    rewrite take_ge; [done|]. rewrite length_drop. unfold blength. lia.
Qed.

(** X16: the hash and the observation of a V1 message depend on its body
    alone: two accepted buffers with the same bytes after their signature
    records yield the same hash and the same observation, whatever their
    guardian-set index and signatures. *)
Theorem parseVM_body_determines (enc1 enc2 : list byte) (vm1 vm2 : VM) :
  parseVM keccak256 enc1 = Ok vm1 →
  parseVM keccak256 enc2 = Ok vm2 →
  drop (N.to_nat (6 + 66 * N.of_nat (length (vm_signatures vm1)))) enc1
  = drop (N.to_nat (6 + 66 * N.of_nat (length (vm_signatures vm2)))) enc2 →
  vm_hash vm1 = vm_hash vm2
  ∧ observation_of_VM vm1 = observation_of_VM vm2.
Proof.
  intros H1 H2 Hbody.
  destruct (parseVM_Ok_inv _ _ H1) as (_ & _ & _ & _ & Hh1 & Ho1).
  destruct (parseVM_Ok_inv _ _ H2) as (_ & _ & _ & _ & Hh2 & Ho2).
  split; [by rewrite Hh1, Hh2, Hbody|].
  apply parseObservation_Ok_inv in Ho1 as (_ & Hin1 & ->).
  apply parseObservation_Ok_inv in Ho2 as (_ & Hin2 & ->).
  rewrite Hbody.
  replace (blength enc1 - (6 + 66 * N.of_nat (length (vm_signatures vm1))))
    with (blength enc2 - (6 + 66 * N.of_nat (length (vm_signatures vm2))));
    [done|].
  apply (f_equal length) in Hbody. rewrite !length_drop in Hbody.
  unfold blength in *. lia.
Qed.

Lemma parseHashes_loop_Ok_inv (n : nat) (index : N) (enc : list byte)
    (hashes : list N) (index' : N) :
  parseHashes_loop n index enc = Ok (hashes, index') →
  length hashes = n ∧ index' = index + 32 * N.of_nat n.
Proof.
  revert index hashes index'. induction n as [|n IH]; intros index hashes index' H.
  - injection H as <- <-. split; [done | lia].
  - cbn [parseHashes_loop] in H.
    apply bind_Ok in H as (h & _ & H).
    apply bind_Ok in H as (i32 & Hi & H).
    apply bind_Ok in H as ([rest i'] & Hrest & H).
    injection H as <- <-.
    apply checked_add_Ok in Hi. subst.
    apply IH in Hrest as [<- ->]. split; [done | lia].
Qed.

Lemma parseObservations_loop_Ok_inv (n : nat) (index : N) (enc : list byte)
    (observations : list (list byte)) :
  parseObservations_loop n index enc = Ok observations →
  length observations = n
  ∧ Forall (λ o, head o = Some Byte.x03) observations.
Proof.
  revert index observations. induction n as [|n IH]; intros index observations H.
  - injection H as <-. done.
  - cbn [parseObservations_loop] in H.
    apply bind_Ok in H as (observationLen & _ & H).
    apply bind_Ok in H as (i1 & _ & H).
    apply bind_Ok in H as (raw & _ & H).
    apply bind_Ok in H as (i2 & _ & H).
    apply bind_Ok in H as (rest & Hrest & H).
    injection H as <-.
    apply IH in Hrest as [<- Hall]. split; [done | by constructor].
Qed.

(** What [parseVM2] has read when it returns. *)
Lemma parseVM2_Ok_inv (encodedVM : list byte) (vm : VM2) :
  parseVM2 keccak256 encodedVM = Ok vm →
  ∃ signersLen hashesLen observationsLen,
    bh_version (vm2_header vm) = 2
    ∧ toUint8 encodedVM 0 = Ok 2
    ∧ toUint8 encodedVM 5 = Ok signersLen
    ∧ N.of_nat (length (bh_signatures (vm2_header vm))) = signersLen
    ∧ toUint8 encodedVM (6 + 66 * signersLen) = Ok hashesLen
    ∧ hashesLen * 32 < 2 ^ 8
    ∧ N.of_nat (length (bh_hashes (vm2_header vm))) = hashesLen
    ∧ toUint8 encodedVM (6 + 66 * signersLen + 32 * hashesLen)
      = Ok observationsLen
    ∧ parseObservations_loop (N.to_nat observationsLen)
        (6 + 66 * signersLen + 32 * hashesLen) encodedVM
      = Ok (vm2_observations vm).
Proof.
  unfold parseVM2. intros H.
  apply bind_Ok in H as (version & Hver & H).
  apply bind_Ok in H as (i1 & Hi1 & H).
  apply bind_Ok in H as (u & Hreq & H).
  apply bind_Ok in H as (guardianSetIndex & _ & H).
  apply bind_Ok in H as (i5 & Hi5 & H).
  apply bind_Ok in H as (signersLen & Hs & H).
  apply bind_Ok in H as (i6 & Hi6 & H).
  apply bind_Ok in H as (signatures & Hsigs & H).
  apply bind_Ok in H as (sigBytes & Hsb & H).
  apply bind_Ok in H as (index & Hindex & H).
  apply bind_Ok in H as (hashesLen & Hh & H).
  apply bind_Ok in H as (bodyLen & Hbl & H).
  apply bind_Ok in H as (body & _ & H).
  apply bind_Ok in H as ([hashes index'] & Hhashes & H).
  apply bind_Ok in H as (observationsLen & Ho & H).
  apply bind_Ok in H as (observations & Hobs & H).
  injection H as <-. cbn.
  apply checked_add_Ok in Hi1, Hi5, Hi6, Hindex.
  apply checked_mul_Ok in Hsb as [-> _], Hbl as [-> Hlt].
  apply require_Ok, N.eqb_eq in Hreq.
  apply parseHashes_loop_Ok_inv in Hhashes as [Hhl ->].
  unfold parseSignatures in Hsigs.
  apply parseSignatures_loop_Ok_inv in Hsigs as [Hsl _].
  subst. cbn in *.
  replace (N.of_nat (N.to_nat hashesLen)) with hashesLen in * by lia.
  exists signersLen, hashesLen, observationsLen.
  repeat split; try done; lia.
Qed.

(** X17: a batch that [parseVM2] accepts has the version byte 2 and at
    most 7 hashes, since [hashesLen * 32] is computed in [uint8]; the
    numbers of signatures, hashes and observations are the count bytes
    read at offsets 5, [6 + 66 * signatures] and
    [6 + 66 * signatures + 32 * hashes]; and every observation it returns
    starts with the marker byte 3. *)
Theorem parseVM2_limits (encodedVM : list byte) (vm : VM2) :
  parseVM2 keccak256 encodedVM = Ok vm →
  let signatures := N.of_nat (length (bh_signatures (vm2_header vm))) in
  let hashes := N.of_nat (length (bh_hashes (vm2_header vm))) in
  bh_version (vm2_header vm) = 2
  ∧ toUint8 encodedVM 0 = Ok 2
  ∧ hashes <= 7
  ∧ toUint8 encodedVM 5 = Ok signatures
  ∧ toUint8 encodedVM (6 + 66 * signatures) = Ok hashes
  ∧ toUint8 encodedVM (6 + 66 * signatures + 32 * hashes)
    = Ok (N.of_nat (length (vm2_observations vm)))
  ∧ Forall (λ o, head o = Some Byte.x03) (vm2_observations vm).
Proof.
  intros (signersLen & hashesLen & observationsLen & Hver & Hv0 & Hs & <- & Hh
          & Hlt & <- & Ho & Hobs)%parseVM2_Ok_inv.
  apply parseObservations_loop_Ok_inv in Hobs as [Hlen Hall].
  cbn. repeat split; try done.
  - change (2 ^ 8) with 256 in Hlt. lia.
  - rewrite Hlen. by replace (N.of_nat (N.to_nat observationsLen))
      with observationsLen by lia.
Qed.

Lemma be_combine_head_weight (l : list byte) :
  (4 <= length l)%nat →
  be_combine (take 1 l) * 2 ^ 24 <= be_combine (take 4 l).
Proof.
  destruct l as [|a [|b [|c [|d l]]]]; cbn [length]; try lia.
  intros _. cbn [take]. rewrite take_0. unfold be_combine. cbn [fold_left].
  change (2 ^ 24) with 16777216. lia.
Qed.

(** X18: the length of a batch observation is read with [toUint32] at the
    offset of the count byte [observationsLen] itself, so a batch with at
    least one observation announces 2^24 bytes or more for the first one:
    from a buffer of at most 2^24 bytes [parseVM2] returns no
    observation. *)
Theorem parseVM2_observations_need_long_buffer (encodedVM : list byte) (vm : VM2) :
  blength encodedVM <= 2 ^ 24 →
  parseVM2 keccak256 encodedVM = Ok vm →
  vm2_observations vm = [].
Proof.
  intros Hshort (signersLen & hashesLen & observationsLen & _ & _ & _ & _ & _
          & _ & _ & Ho & Hobs)%parseVM2_Ok_inv.
  destruct (N.to_nat observationsLen) as [|n] eqn:En.
  { by injection Hobs as <-. }
  exfalso.
  cbn [parseObservations_loop] in Hobs.
  apply bind_Ok in Hobs as (observationLen & Hl & Hobs).
  apply bind_Ok in Hobs as (i1 & Hi1 & Hobs).
  apply bind_Ok in Hobs as (raw & Hraw & _).
  apply checked_add_Ok in Hi1. subst i1.
  apply slice_Ok in Hraw as [Hin _].
  apply toUint_Ok_inv in Ho as [_ ->], Hl as [Hin4 ->].
  pose proof (be_combine_head_weight
    (drop (N.to_nat (6 + 66 * signersLen + 32 * hashesLen)) encodedVM)) as Hw.
  change (N.to_nat 1) with 1%nat in *. change (N.to_nat 4) with 4%nat in *.
  assert (Hlen : (4 <= length (drop (N.to_nat (6 + 66 * signersLen + 32 * hashesLen))
                                    encodedVM))%nat).
  { rewrite length_drop. unfold blength in Hin4. lia. }
  specialize (Hw Hlen).
  change (2 ^ 24) with 16777216 in *. lia.
Qed.

(** X19: the unified entry point accepts nothing but V1 messages, and
    only verified ones. When [parseAndVerifyVAA] returns [valid = true],
    the first byte is 1, the buffer parses as a V1 message whose
    observation is the one returned, the reason is empty, and either the
    hash of the message was in the cache or its guardian set is current
    or unexpired and more than two thirds of its guardians, each counted
    once, have signed the hash. *)
Theorem parseAndVerifyVAA_sound (st : State) (encodedVM : list byte)
    (observation : Observation) (reason : string) :
  parseAndVerifyVAA keccak256 ecrecover st encodedVM
  = Ok (observation, true, reason) →
  ∃ vm,
    toUint8 encodedVM 0 = Ok 1
    ∧ parseVM keccak256 encodedVM = Ok vm
    ∧ observation = observation_of_VM vm
    ∧ reason = ""%string
    ∧ (verifiedHashCached st (vm_hash vm) = true
       ∨ (2 * length (keys (getGuardianSet st (vm_guardianSetIndex vm)))
          < 3 * length (vm_signatures vm))%nat
         ∧ NoDup (sig_guardianIndex <$> vm_signatures vm)
         ∧ Forall (individually_valid ecrecover (vm_hash vm)
                     (getGuardianSet st (vm_guardianSetIndex vm)))
             (vm_signatures vm)
         ∧ (vm_guardianSetIndex vm = getCurrentGuardianSetIndex st
            ∨ block_timestamp st
              <= expirationTime (getGuardianSet st (vm_guardianSetIndex vm)))).
Proof.
  unfold parseAndVerifyVAA. intros H.
  apply bind_Ok in H as (version & Hv & H).
  destruct (version =? 1) eqn:E1.
  - apply N.eqb_eq in E1. subst version.
    apply bind_Ok in H as ([[vm valid] reason'] & Hp & H).
    injection H as <- -> ->.
    unfold parseAndVerifyVM in Hp.
    apply bind_Ok in Hp as (vm' & Hvm & Hp).
    apply bind_Ok in Hp as ([valid' reason''] & Hver & Hp).
    injection Hp as -> -> ->.
    exists vm. split; [done|]. split; [done|]. split; [done|].
    unfold verifyVM in Hver.
    destruct (verifiedHashCached st (vm_hash vm)) eqn:Hc.
    + split; [|by left]. unfold verifyHeader in Hver. cbn in Hver.
      rewrite Hc in Hver. by injection Hver as <-.
    + apply verifyHeader_accepted_inv in Hver; [|done].
      cbn in Hver. destruct Hver as (-> & _ & _ & Hexp & Hq & Hall & Hs).
      split; [done|]. right.
      destruct (accepted_signatures_distinct ecrecover _ _ _ Hall Hs)
        as (Hnd & _ & _).
      split; [|done].
      set (k := N.of_nat (length (keys (getGuardianSet st (vm_guardianSetIndex vm)))))
        in *.
      pose proof (N.Div0.div_mod (k * 2) 3) as Hd.
      pose proof (N.mod_upper_bound (k * 2) 3 ltac:(lia)) as Hm.
      set (d := k * 2 / 3) in *. set (m := (k * 2) mod 3) in *.
      unfold k in *. clearbody d m. lia.
  - destruct (version =? 3); [|done].
    destruct (parseVM3_reverts keccak256 encodedVM) as [e He].
    unfold parseAndVerifyVM3 in H. by rewrite He in H.
Qed.
End Wire.

(** Signature records that are in the buffer parse, unless a recovery
    byte is too large for [+ 27] in [uint8]. *)
Lemma parseSignatures_loop_succeeds (n : nat) (start : N) (data : list byte) :
  start + 66 * N.of_nat n < 2 ^ 256 →
  start + 66 * N.of_nat n <= blength data →
  (∀ i : nat, (i < n)%nat →
     ∃ v0, toUint8 data (start + 66 * N.of_nat i + 65) = Ok v0 ∧ v0 <= 228) →
  ∃ sigs, parseSignatures_loop n start data = Ok sigs.
Proof.
  revert start. induction n as [|n IH]; intros start Hsize Hin Hrec; [by eexists|].
  cbn [parseSignatures_loop].
  destruct (Hrec 0%nat ltac:(lia)) as (v0 & Hv0 & Hle).
  replace (start + 66 * N.of_nat 0 + 65) with (start + 1 + 32 + 32) in Hv0 by lia.
  run_reads.
  unfold toUint8 in Hv0. rewrite toUint_eq in Hv0 by lia.
  injection Hv0 as Hv0. rewrite Hv0.
  rewrite (checked_add_eq 8) by (change (2 ^ 8) with 256; lia).
  run_reads.
  destruct (IH (start + 1 + 32 + 32 + 1)) as [rest ->]; [lia | lia | | by eexists].
  intros i Hi. destruct (Hrec (S i) ltac:(lia)) as (v & Hv & Hvle).
  exists v. split; [|done].
  by replace (start + 1 + 32 + 32 + 1 + 66 * N.of_nat i + 65)
    with (start + 66 * N.of_nat (S i) + 65) by lia.
Qed.

Section Acceptance_V1.
Variable keccak256 : list byte → N.

(** X20: on a buffer of fewer than 2^256 bytes [parseVM] returns exactly
    when the first byte is 1, the buffer holds the [n] signature records
    announced at offset 5 and at least 51 bytes behind them, and no
    recovery byte exceeds 228. In particular it rejects every buffer
    shorter than 57 bytes. *)
Theorem parseVM_accepts_iff (encodedVM : list byte) :
  blength encodedVM < 2 ^ 256 →
  (∃ vm, parseVM keccak256 encodedVM = Ok vm)
  ↔ ∃ n, toUint8 encodedVM 0 = Ok 1
         ∧ toUint8 encodedVM 5 = Ok n
         ∧ 57 + 66 * n <= blength encodedVM
         ∧ ∀ i : nat, N.of_nat i < n →
             ∃ v0, toUint8 encodedVM (6 + 66 * N.of_nat i + 65) = Ok v0
                   ∧ v0 <= 228.
Proof.
  intros Hsize. split.
  - intros [vm Hvm].
    pose proof (parseVM_version keccak256 _ _ Hvm) as Hv0.
    destruct (parseVM_Ok_inv keccak256 _ _ Hvm) as (_ & _ & Hn & Hsigs & _ & Hobs).
    apply parseObservation_Ok_inv in Hobs as (Hlen & Hin & _).
    unfold parseSignatures in Hsigs.
    apply parseSignatures_loop_Ok_inv in Hsigs as [_ Hlayout].
    exists (N.of_nat (length (vm_signatures vm))).
    split; [done|]. split; [done|]. split; [lia|].
    intros i Hi.
    destruct (lookup_lt_is_Some_2 (vm_signatures vm) i ltac:(lia)) as [sig Hsig].
    destruct (Hlayout i sig Hsig) as (_ & _ & _ & _ & Hv & Hrange & _).
    exists (sig_v sig - 27). split; [done | lia].
  - intros (n & Hv0 & Hn & Hlen & Hrec).
    destruct (parseSignatures_loop_succeeds (N.to_nat n) 6 encodedVM)
      as [sigs Hsigs]; [lia | lia | intros i Hi; apply Hrec; lia |].
    assert (Hn256 : n < 256).
    { apply toUint_bound in Hn. by change (256 ^ 1) with 256 in Hn. }
    unfold parseVM. rewrite Hv0, bind_Ok_l.
    rewrite checked_add_eq by lia. rewrite bind_Ok_l.
    change (0 + 1) with 1. cbn [N.eqb Pos.eqb require]. rewrite bind_Ok_l.
    unfold toUint32. rewrite toUint_eq by lia. rewrite bind_Ok_l.
    rewrite checked_add_eq by lia. rewrite bind_Ok_l.
    change (1 + 4) with 5. rewrite Hn, bind_Ok_l.
    rewrite checked_add_eq by lia. rewrite bind_Ok_l.
    change (5 + 1) with 6. unfold parseSignatures. rewrite Hsigs, bind_Ok_l.
    rewrite checked_mul_eq by lia. rewrite bind_Ok_l.
    rewrite checked_add_eq by lia. rewrite bind_Ok_l.
    rewrite checked_sub_eq by lia. rewrite bind_Ok_l.
    rewrite slice_eq by lia. rewrite !bind_Ok_l.
    rewrite parseObservation_eq by lia. rewrite bind_Ok_l.
    by eexists.
Qed.
End Acceptance_V1.

(** ** Closed instances of the further properties *)

(** X1 on four guardians: three signatures are needed and can be had. *)
Lemma quorum_two_thirds_witness : quorum 4 = Ok 3 ∧ 3 <= 4.
Proof.
  pose proof (quorum_two_thirds 4) as H.
  change (quorum 4) with (@Ok N 3) in H.
  destruct H as (_ & _ & _ & H).
  split; [reflexivity|]. apply H. discriminate.
Defined.

(** X2 on one valid signature. *)
Lemma verifySignatures_accepts_iff_witness :
  Forall (individually_valid sample_ecrecover 1 one_guardian) [good_sig]
  ∧ Sorted N.lt (sig_guardianIndex <$> [good_sig])
  ∧ verifySignatures sample_ecrecover 1 [good_sig] one_guardian
    = Ok (true, ""%string).
Proof.
  assert (Hall : Forall (individually_valid sample_ecrecover 1 one_guardian)
                   [good_sig]) by (constructor; [reflexivity | constructor]).
  assert (Hs : Sorted N.lt (sig_guardianIndex <$> [good_sig]))
    by (repeat constructor).
  split; [exact Hall|]. split; [exact Hs|].
  apply (proj2 (verifySignatures_accepts_iff sample_ecrecover 1 [good_sig]
                  one_guardian ""%string)).
  split; [reflexivity|]. split; [exact Hall | exact Hs].
Defined.

(** X3 on one valid signature. *)
Lemma verifySignatures_distinct_guardians_witness :
  verifySignatures sample_ecrecover 1 [good_sig] one_guardian = Ok (true, ""%string)
  ∧ NoDup (sig_guardianIndex <$> [good_sig])
  ∧ (length [good_sig] <= length (keys one_guardian))%nat.
Proof.
  split; [reflexivity|].
  destruct (verifySignatures_distinct_guardians sample_ecrecover 1 [good_sig]
              one_guardian ""%string eq_refl) as (Hnd & _ & Hlen).
  split; [exact Hnd | exact Hlen].
Defined.

(** X4 on the one-guardian set and its one valid signature. *)
Lemma verifyHeader_accepts_iff_witness :
  verifiedHashCached (guardian_state [44]) 1 = false
  ∧ verifyHeader sample_ecrecover (guardian_state [44]) (header_of 0 [good_sig] 1)
    = Ok (true, ""%string)
  ∧ keys (getGuardianSet (guardian_state [44]) 0) ≠ [].
Proof.
  split; [reflexivity|]. split; [reflexivity|].
  exact (proj1 (proj2 (proj1 (verifyHeader_accepts_iff sample_ecrecover
                                (guardian_state [44]) (header_of 0 [good_sig] 1)
                                ""%string eq_refl) eq_refl))).
Defined.

(** X5 on the one-guardian set and its one valid signature. *)
Lemma verifyHeader_supermajority_witness :
  verifiedHashCached (guardian_state [44]) 1 = false
  ∧ verifyHeader sample_ecrecover (guardian_state [44]) (header_of 0 [good_sig] 1)
    = Ok (true, ""%string)
  ∧ (2 * length (keys (getGuardianSet (guardian_state [44%N]) 0%N))
     < 3 * length [good_sig])%nat.
Proof.
  split; [reflexivity|]. split; [reflexivity|].
  exact (proj1 (verifyHeader_supermajority sample_ecrecover (guardian_state [44])
                  (header_of 0 [good_sig] 1) ""%string eq_refl eq_refl)).
Defined.

(** X6 on the guardian-set index 3, which [empty_state] does not know. *)
Lemma verifyHeader_unknown_guardian_set_witness :
  guardianSets empty_state !! 3 = None
  ∧ verifiedHashCached empty_state 1 = false
  ∧ verifyHeader sample_ecrecover empty_state (header_of 3 [good_sig] 1)
    = Ok (false, "invalid guardian set"%string).
Proof.
  split; [reflexivity|]. split; [reflexivity|].
  exact (verifyHeader_unknown_guardian_set sample_ecrecover empty_state
           (header_of 3 [good_sig] 1) eq_refl eq_refl).
Defined.

(** X8 on [batch_buffer]. *)
Lemma parseAndVerifyVM2_frame_witness :
  parseAndVerifyVM2 sample_keccak256 sample_ecrecover empty_state batch_buffer
  = Ok (batch_message, false, "invalid guardian set"%string, batch_state)
  ∧ verifyBatchHeader sample_ecrecover empty_state (vm2_header batch_message)
    = Ok (false, "invalid guardian set"%string)
  ∧ verifiedHashCached batch_state 5 = verifiedHashCached empty_state 5.
Proof.
  assert (H : parseAndVerifyVM2 sample_keccak256 sample_ecrecover empty_state
                batch_buffer
              = Ok (batch_message, false, "invalid guardian set"%string, batch_state))
    by (vm_compute; reflexivity).
  destruct (parseAndVerifyVM2_frame sample_keccak256 sample_ecrecover _ _ _ _ _ _ H)
    as (_ & Hv & _ & _ & _ & Hother).
  split; [exact H|]. split; [exact Hv|].
  apply Hother. intros Hin.
  apply list_elem_of_singleton in Hin. vm_compute in Hin. discriminate Hin.
Defined.

(** X9 on [batch_buffer] and a V3 message with the hash of the batch. *)
Lemma batch_then_wipe_witness :
  parseAndVerifyVM2 sample_keccak256 sample_ecrecover empty_state batch_buffer
  = Ok (batch_message, false, "invalid guardian set"%string, batch_state)
  ∧ verifyVM3 (wipeBatchCache (vm2_header batch_message) batch_state)
      {| vm3_version := 3; vm3_observation := emptyObservation;
         vm3_hash := be_combine (bytes_of (1 :: repeat 170 31)) |}
    = Ok (false, "Could not find hash in cache"%string).
Proof.
  assert (H : parseAndVerifyVM2 sample_keccak256 sample_ecrecover empty_state
                batch_buffer
              = Ok (batch_message, false, "invalid guardian set"%string, batch_state))
    by (vm_compute; reflexivity).
  split; [exact H|].
  apply (proj1 (batch_then_wipe sample_keccak256 sample_ecrecover _ _ _ _ _ _ H)).
  cbn. left.
Defined.

(** X10 on the body of [v1_buffer], at offset 72. *)
Lemma parseObservation_decodes_witness :
  parseObservation 72 53 v1_buffer = Ok v1_observation
  ∧ 51 <= 53 ∧ 72 + 53 <= blength v1_buffer.
Proof.
  assert (H : parseObservation 72 53 v1_buffer = Ok v1_observation)
    by (vm_compute; reflexivity).
  destruct (parseObservation_decodes 72 53 v1_buffer v1_observation H)
    as (H1 & H2 & _).
  split; [exact H|]. split; [exact H1 | exact H2].
Defined.

(** X11 on the body of [v1_buffer]. *)
Lemma parseObservation_succeeds_iff_witness :
  blength v1_buffer < 2 ^ 256
  ∧ 51 <= 53 ∧ 72 + 53 <= blength v1_buffer
  ∧ ∃ o, parseObservation 72 53 v1_buffer = Ok o.
Proof.
  assert (Hsize : blength v1_buffer < 2 ^ 256) by reflexivity.
  assert (Hlen : 51 <= 53) by (vm_compute; discriminate).
  assert (Hin : 72 + 53 <= blength v1_buffer) by (vm_compute; discriminate).
  split; [exact Hsize|]. split; [exact Hlen|]. split; [exact Hin|].
  exact (proj2 (parseObservation_succeeds_iff 72 53 v1_buffer Hsize) (conj Hlen Hin)).
Defined.

(** X12 on the body of [v1_buffer]. *)
Lemma parseObservation_fields_in_range_witness :
  parseObservation 72 53 v1_buffer = Ok v1_observation
  ∧ obs_sequence v1_observation < 2 ^ 64
  ∧ blength (obs_payload v1_observation) = 53 - 51.
Proof.
  assert (H : parseObservation 72 53 v1_buffer = Ok v1_observation)
    by (vm_compute; reflexivity).
  destruct (parseObservation_fields_in_range 72 53 v1_buffer v1_observation H)
    as (_ & _ & _ & _ & Hs & _ & Hp).
  split; [exact H|]. split; [exact Hs | exact Hp].
Defined.

(** X13 on the body of [v1_buffer], announced as ten bytes. *)
Lemma parseObservation_short_length_witness :
  blength v1_buffer < 2 ^ 256
  ∧ 72 + 51 <= blength v1_buffer
  ∧ 10 < 51
  ∧ parseObservation 72 10 v1_buffer
    = Err (Reverted "Insufficient observation length").
Proof.
  assert (Hsize : blength v1_buffer < 2 ^ 256) by reflexivity.
  assert (Hin : 72 + 51 <= blength v1_buffer) by (vm_compute; discriminate).
  assert (Hlen : 10 < 51) by reflexivity.
  split; [exact Hsize|]. split; [exact Hin|]. split; [exact Hlen|].
  exact (parseObservation_short_length 72 10 v1_buffer Hsize Hin Hlen).
Defined.

(** X14 on the one signature record of [v1_buffer]. *)
Lemma parseSignatures_layout_witness :
  parseSignatures 6 1 v1_buffer = Ok (vm_signatures v1_message)
  ∧ N.of_nat (length (vm_signatures v1_message)) = 1.
Proof.
  assert (H : parseSignatures 6 1 v1_buffer = Ok (vm_signatures v1_message))
    by (vm_compute; reflexivity).
  split; [exact H|].
  exact (proj1 (parseSignatures_layout 6 1 v1_buffer _ H)).
Defined.

(** X15 on [v1_buffer]. *)
Lemma parseVM_layout_witness :
  parseVM sample_keccak256 v1_buffer = Ok v1_message
  ∧ toUint8 v1_buffer 5 = Ok (N.of_nat (length (vm_signatures v1_message))).
Proof.
  assert (H : parseVM sample_keccak256 v1_buffer = Ok v1_message)
    by (vm_compute; reflexivity).
  destruct (parseVM_layout sample_keccak256 v1_buffer v1_message H)
    as (_ & _ & _ & Hn & _).
  split; [exact H | exact Hn].
Defined.

(** X16 on [v1_buffer] and [v1_buffer_other], which share the body. *)
Lemma parseVM_body_determines_witness :
  parseVM sample_keccak256 v1_buffer = Ok v1_message
  ∧ parseVM sample_keccak256 v1_buffer_other = Ok v1_message_other
  ∧ vm_hash v1_message = vm_hash v1_message_other
  ∧ observation_of_VM v1_message = observation_of_VM v1_message_other.
Proof.
  assert (H1 : parseVM sample_keccak256 v1_buffer = Ok v1_message)
    by (vm_compute; reflexivity).
  assert (H2 : parseVM sample_keccak256 v1_buffer_other = Ok v1_message_other)
    by (vm_compute; reflexivity).
  split; [exact H1|]. split; [exact H2|].
  apply (parseVM_body_determines sample_keccak256 _ _ _ _ H1 H2).
  vm_compute. reflexivity.
Defined.

(** X17 on [batch_buffer]. *)
Lemma parseVM2_limits_witness :
  parseVM2 sample_keccak256 batch_buffer = Ok batch_message
  ∧ N.of_nat (length (bh_hashes (vm2_header batch_message))) <= 7.
Proof.
  assert (H : parseVM2 sample_keccak256 batch_buffer = Ok batch_message)
    by (vm_compute; reflexivity).
  destruct (parseVM2_limits sample_keccak256 batch_buffer batch_message H)
    as (_ & _ & Hh & _).
  split; [exact H | exact Hh].
Defined.

(** X18 on [batch_buffer], of 39 bytes. *)
Lemma parseVM2_observations_need_long_buffer_witness :
  blength batch_buffer <= 2 ^ 24
  ∧ parseVM2 sample_keccak256 batch_buffer = Ok batch_message
  ∧ vm2_observations batch_message = [].
Proof.
  assert (Hshort : blength batch_buffer <= 2 ^ 24) by (vm_compute; discriminate).
  assert (H : parseVM2 sample_keccak256 batch_buffer = Ok batch_message)
    by (vm_compute; reflexivity).
  split; [exact Hshort|]. split; [exact H|].
  exact (parseVM2_observations_need_long_buffer sample_keccak256 _ _ Hshort H).
Defined.

(** X19 on [v1_buffer] under the guardian set of its signer. *)
Lemma parseAndVerifyVAA_sound_witness :
  parseAndVerifyVAA sample_keccak256 sample_ecrecover (guardian_state [v1_signer])
    v1_buffer
  = Ok (v1_observation, true, ""%string)
  ∧ ∃ vm, toUint8 v1_buffer 0 = Ok 1
          ∧ parseVM sample_keccak256 v1_buffer = Ok vm
          ∧ v1_observation = observation_of_VM vm.
Proof.
  assert (H : parseAndVerifyVAA sample_keccak256 sample_ecrecover
                (guardian_state [v1_signer]) v1_buffer
              = Ok (v1_observation, true, ""%string)) by (vm_compute; reflexivity).
  split; [exact H|].
  destruct (parseAndVerifyVAA_sound sample_keccak256 sample_ecrecover _ _ _ _ H)
    as (vm & H0 & Hp & Ho & _).
  exists vm. split; [exact H0|]. split; [exact Hp | exact Ho].
Defined.

(** X20 on [v1_buffer]. *)
Lemma parseVM_accepts_iff_witness :
  blength v1_buffer < 2 ^ 256
  ∧ (∃ vm, parseVM sample_keccak256 v1_buffer = Ok vm)
  ∧ ∃ n, toUint8 v1_buffer 0 = Ok 1
         ∧ toUint8 v1_buffer 5 = Ok n
         ∧ 57 + 66 * n <= blength v1_buffer.
Proof.
  assert (Hsize : blength v1_buffer < 2 ^ 256) by reflexivity.
  assert (H : ∃ vm, parseVM sample_keccak256 v1_buffer = Ok vm)
    by (exists v1_message; vm_compute; reflexivity).
  split; [exact Hsize|]. split; [exact H|].
  destruct (proj1 (parseVM_accepts_iff sample_keccak256 v1_buffer Hsize) H)
    as (n & H0 & Hn & Hlen & _).
  exists n. split; [exact H0|]. split; [exact Hn | exact Hlen].
Defined.
